(** * eMailMiner: the per-domain crawl of [mail_miner.py] / [mail_miner_mt.py]

    A shallow embedding of [scrape_domain], [save_to_db],
    [load_domains_from_file] and [process_domains_and_save_to_db] in its
    sequential and its threaded variant, and the properties of the crawl and
    of the stored rows that follow from the code.

    Python [str] values are modelled by [string] (sequences of code points
    0..255), Python sets by [gset], the [deque] by a [list] whose head is the
    left end, and the [emails] table by the list of its rows.  The network,
    the URL parser and the HTML parser are parameters of the crawl.  Printing
    is left out, and so are [KeyboardInterrupt] and errors of the database
    connection, which no statement below is about. *)

From Stdlib Require Import ZArith Ascii String List Lia.
From stdpp Require Import base decidable list gmap strings pretty.

Local Open Scope string_scope.
Local Open Scope list_scope.

(** ** Python string primitives used by the crawl *)

Module PyStr.

(** [s.startswith(p)] *)
Fixpoint startswith (p s : string) : bool :=
  match p, s with
  | EmptyString, _ => true
  | String _ _, EmptyString => false
  | String a p', String b s' => if decide (a = b) then startswith p' s' else false
  end.

(** [p in s] on strings: [p] occurs as a contiguous substring of [s]. *)
Fixpoint contains (p s : string) : bool :=
  startswith p s ||
  match s with
  | EmptyString => false
  | String _ s' => contains p s'
  end.

(** [s.rfind(c)] for a one-character [c]: the highest index, or -1. *)
Fixpoint rfind (c : ascii) (s : string) : Z :=
  match s with
  | EmptyString => (-1)%Z
  | String a s' =>
      let r := rfind c s' in
      if (0 <=? r)%Z then (r + 1)%Z
      else if decide (a = c) then 0%Z else (-1)%Z
  end.

(** [s[:n]] for a natural [n]. *)
Fixpoint take (n : nat) (s : string) : string :=
  match n, s with
  | O, _ => EmptyString
  | S _, EmptyString => EmptyString
  | S n', String a s' => String a (take n' s')
  end.

(** [s[n:]] for a natural [n]. *)
Fixpoint drop (n : nat) (s : string) : string :=
  match n, s with
  | O, _ => s
  | S _, EmptyString => EmptyString
  | S n', String _ s' => drop n' s'
  end.

(** [s.endswith(p)]: the last [len(p)] characters of [s] are [p]. *)
Definition endswith (p s : string) : bool :=
  (String.length p <=? String.length s)%nat
  && bool_decide (drop (String.length s - String.length p) s = p).

(** [s[:s.rfind(c)+1]]; the index [rfind + 1] is never negative. *)
Definition upto_last (c : ascii) (s : string) : string :=
  take (Z.to_nat (rfind c s + 1)) s.

(** The longest prefix of [s] made of characters satisfying [p], and the rest. *)
Fixpoint span (p : ascii → bool) (s : string) : string * string :=
  match s with
  | EmptyString => (EmptyString, EmptyString)
  | String c s' =>
      if p c then let '(run, rest) := span p s' in (String c run, rest)
      else (EmptyString, s)
  end.

(** [c.isspace()] on the code points 0..255: tab to carriage return, the
    four separators 28..31, the space, NEL and the no-break space. *)
Definition isspace (c : ascii) : bool :=
  let n := nat_of_ascii c in
  ((9 <=? n) && (n <=? 13) || (28 <=? n) && (n <=? 32)
   || (n =? 133) || (n =? 160))%nat.

(** [s.lstrip()] *)
Definition lstrip (s : string) : string := snd (span isspace s).

(** [s.rstrip()] *)
Fixpoint rstrip (s : string) : string :=
  match s with
  | EmptyString => EmptyString
  | String c s' =>
      match rstrip s' with
      | EmptyString => if isspace c then EmptyString else String c EmptyString
      | r => String c r
      end
  end.

(** [s.strip()] *)
Definition strip (s : string) : string := rstrip (lstrip s).

End PyStr.

(** ** The e-mail pattern

    [re.findall(r"[a-z0-9\.\-+_]+@[a-z0-9\.\-+_]+\.[a-z]+", text, re.I)].
    The matcher below is this one pattern unfolded.  The first class cannot
    match [@], so the local part at a start position is the whole run of
    class characters there, and it must be followed by [@].  The second run is
    greedy and gives back characters until what follows is a dot and a letter:
    the dot is the last dot of the run that has a letter after it.  The final
    [[a-z]+] takes every letter that follows.  [findall] resumes after the end
    of each match and otherwise moves on by one character. *)

Module EmailRe.
Import PyStr.

Definition is_letter (c : ascii) : bool :=
  let n := nat_of_ascii c in
  ((65 <=? n) && (n <=? 90) || (97 <=? n) && (n <=? 122))%nat.

Definition is_digit (c : ascii) : bool :=
  let n := nat_of_ascii c in ((48 <=? n) && (n <=? 57))%nat.

(** The class [[a-z0-9\.\-+_]] under [re.I]. *)
Definition is_word (c : ascii) : bool :=
  is_letter c || is_digit c ||
  bool_decide (c = "."%char) || bool_decide (c = "-"%char) ||
  bool_decide (c = "+"%char) || bool_decide (c = "_"%char).

(** On the characters of the second run after its first one: the split at
    the last dot that is followed by a letter, as (characters before the
    dot, letters after it). *)
Fixpoint last_tld (d : string) : option (string * string) :=
  match d with
  | EmptyString => None
  | String c d' =>
      match last_tld d' with
      | Some (host, tld) => Some (String c host, tld)
      | None =>
          if bool_decide (c = "."%char) then
            match span is_letter d' with
            | (EmptyString, _) => None
            | (tld, _) => Some (EmptyString, tld)
            end
          else None
      end
  end.

(** The match of the pattern that starts at the first character of [s]. *)
Definition match_here (s : string) : option string :=
  match span is_word s with
  | (EmptyString, _) => None
  | (local, String c rest) =>
      if bool_decide (c = "@"%char) then
        match span is_word rest with
        | (String d0 d, _) =>
            match last_tld d with
            | Some (host, tld) =>
                Some (local +:+ "@" +:+ String d0 host +:+ "." +:+ tld)
            | None => None
            end
        | (EmptyString, _) => None
        end
      else None
  | (_, EmptyString) => None
  end.

(** The scan: [skip] counts the characters still covered by the last match. *)
Fixpoint scan (skip : nat) (s : string) : list string :=
  match s with
  | EmptyString => []
  | String _ s' =>
      match skip with
      | S k => scan k s'
      | O =>
          match match_here s with
          | Some m => m :: scan (String.length m - 1) s'
          | None => scan 0 s'
          end
      end
  end.

Definition findall (text : string) : list string := scan 0 text.

End EmailRe.

(** ** [urllib.parse] *)

(** The named tuple returned by [urllib.parse.urlsplit]. *)
Record SplitResult := mkSplit {
  scheme : string;
  netloc : string;
  path : string;
  query : string;
  fragment : string
}.

(** [is_valid_url], given the parse of its argument.  The source parses with
    [urlparse], whose [scheme] and [netloc] are those of [urlsplit]; in the
    loop the same URL has just been split, so the parse is passed in. *)
Definition is_valid_url (parsed_url : SplitResult) : bool :=
  (bool_decide (scheme parsed_url = "http") || bool_decide (scheme parsed_url = "https"))
  && negb (bool_decide (netloc parsed_url = "")).

(** A model of [urlsplit] itself, used for the concrete runs below.  It
    follows CPython's function on text without control characters: scheme
    up to the first colon when it starts with a letter and consists of scheme
    characters, network location after [//] up to the first of [/?#], then the
    fragment and the query are cut off; unbalanced square brackets in the
    network location raise [ValueError] ([None]). *)
Module UrlLib.
Import PyStr EmailRe.

Definition is_scheme_char (c : ascii) : bool :=
  is_letter c || is_digit c ||
  bool_decide (c = "+"%char) || bool_decide (c = "-"%char) || bool_decide (c = "."%char).

Definition lower_char (c : ascii) : ascii :=
  let n := nat_of_ascii c in
  if ((65 <=? n) && (n <=? 90))%nat then ascii_of_nat (n + 32) else c.

Fixpoint lower (s : string) : string :=
  match s with
  | EmptyString => EmptyString
  | String c s' => String (lower_char c) (lower s')
  end.

Fixpoint all_chars (p : ascii → bool) (s : string) : bool :=
  match s with
  | EmptyString => true
  | String c s' => p c && all_chars p s'
  end.

(** [s.split(c, 1)] when [c] occurs in [s]; otherwise [(s, "")]. *)
Definition cut (c : ascii) (s : string) : string * string :=
  match span (λ a, negb (bool_decide (a = c))) s with
  | (pre, String _ post) => (pre, post)
  | (pre, EmptyString) => (pre, EmptyString)
  end.

Definition split_scheme (url : string) : string * string :=
  match span (λ a, negb (bool_decide (a = ":"%char))) url with
  | (String c0 pre, String _ rest) =>
      if is_letter c0 && all_chars is_scheme_char (String c0 pre)
      then (lower (String c0 pre), rest) else (EmptyString, url)
  | _ => (EmptyString, url)
  end.

Definition is_delim (c : ascii) : bool :=
  bool_decide (c = "/"%char) || bool_decide (c = "?"%char) || bool_decide (c = "#"%char).

Definition urlsplit (url : string) : option SplitResult :=
  let '(sch, url1) := split_scheme url in
  let '(loc, url2) :=
    if startswith "//" url1 then span (λ a, negb (is_delim a)) (drop 2 url1)
    else (EmptyString, url1) in
  if xorb (contains "[" loc) (contains "]" loc) then None
  else
    let '(url3, frag) := cut "#" url2 in
    let '(url4, qry) := cut "?" url3 in
    Some (mkSplit sch loc url4 qry frag).

End UrlLib.

(** ** [scrape_domain] *)

(** What [requests.get] returned: the two attributes the crawl reads. *)
Record Response := mkResponse {
  status_code : Z;
  text : string
}.

(** The calls of one crawl in the order they happen: [urls.popleft()],
    [requests.get(url, timeout=5)] and [urls.append(link)].  The log is not
    in the source; it records what the source does, for the statements. *)
Inductive event :=
| Popleft (url : string)
| Get (url : string)
| Append (link : string).

(** The local variables of [scrape_domain] that live across iterations. *)
Record crawl := mkCrawl {
  urls : list string;
  local_emails : gset string;
  local_scraped_urls : gset string;
  log : list event
}.

(** How one pass through the body of [while urls:] ends. *)
Inductive flow :=
| Continue (st : crawl)   (* [continue], or the end of the body *)
| Break (st : crawl)      (* [break] *)
| Raise.                  (* an exception that [scrape_domain] does not catch *)

(** The variables that a pass leaves behind, when it ends normally. *)
Definition flow_state (f : flow) : option crawl :=
  match f with
  | Continue st | Break st => Some st
  | Raise => None
  end.

(** How [scrape_domain] ends: [return local_emails, local_scraped_urls]
    from the final variables, or the uncaught exception. *)
Inductive result :=
| Returned (st : crawl)
| Raised.

Definition exclusion_list : list string := [".jpg"; ".jpeg"; ".pdf"; ".png"].

(** [any([x in link for x in exclusion_list])] *)
Definition excluded (link : string) : bool :=
  existsb (λ x, PyStr.contains x link) exclusion_list.

(** Lines 106-109: the link made absolute. *)
Definition resolve (base_url path link : string) : string :=
  if PyStr.startswith "/" link then base_url +:+ link
  else if negb (PyStr.startswith "http" link) then path +:+ link
  else link.

(** Line 114: the test that guards [urls.append(link)]. *)
Definition enqueueable (st : crawl) (link : string) : bool :=
  bool_decide (link ∉ urls st) && bool_decide (link ∉ local_scraped_urls st)
  && negb (excluded link).

(** The body of [for anchor in soup.find_all("a")]; an anchor is given by its
    [href] attribute, [None] when it has none. *)
Definition visit_anchor (base_url path : string) (st : crawl) (anchor : option string) : crawl :=
  let link := resolve base_url path (default "" anchor) in
  if enqueueable st link then
    mkCrawl (urls st ++ [link]) (local_emails st) (local_scraped_urls st)
            (log st ++ [Append link])
  else st.

(** Line 73: [url[:url.rfind('/')+1] if '/' in parts.path else url]. *)
Definition path_prefix (parts : SplitResult) (url : string) : string :=
  if PyStr.contains "/" (path parts) then PyStr.upto_last "/" url else url.

(** The [url] arguments of the log's events, by kind and in order. *)
Definition popped (l : list event) : list string :=
  omap (λ e, match e with Popleft u => Some u | _ => None end) l.
Definition fetched (l : list event) : list string :=
  omap (λ e, match e with Get u => Some u | _ => None end) l.
Definition appended (l : list event) : list string :=
  omap (λ e, match e with Append u => Some u | _ => None end) l.

(** Lines 65-68: the variables after [url = urls.popleft()] and
    [local_scraped_urls.add(url)], given the variables with [url] already
    taken off the deque. *)
Definition scraped_add (url : string) (st : crawl) : crawl :=
  mkCrawl (urls st) (local_emails st) ({[url]} ∪ local_scraped_urls st)
          (log st ++ [Popleft url]).

(** The log entry for the call of [requests.get(url, timeout=5)]. *)
Definition requested (url : string) (st : crawl) : crawl :=
  mkCrawl (urls st) (local_emails st) (local_scraped_urls st) (log st ++ [Get url]).

(** Lines 95-96: [local_emails.update(new_emails)]. *)
Definition emails_update (body : string) (st : crawl) : crawl :=
  mkCrawl (urls st) (local_emails st ∪ list_to_set (EmailRe.findall body))
          (local_scraped_urls st) (log st).

(** [while urls:] takes the head of the deque. *)
Definition popleft (rest : list string) (st : crawl) : crawl :=
  mkCrawl rest (local_emails st) (local_scraped_urls st) (log st).

Section Crawl.

(** The collaborators: [urllib.parse.urlsplit] ([None] when it raises
    [ValueError]), [requests.get] ([None] when it raises, whatever the
    exception) and the [href] attributes of [soup.find_all("a")] on a
    response text, in document order. *)
Variable urlsplit : string → option SplitResult.
Variable requests_get : string → option Response.
Variable find_all_a : string → list (option string).

(** Lines 95-115: the e-mails and the links of a page answered with 200. *)
Definition scan_page (parts : SplitResult) (url : string) (response : Response)
    (st : crawl) : crawl :=
  let base_url := scheme parts +:+ "://" +:+ netloc parts in
  let path := path_prefix parts url in
  foldl (visit_anchor base_url path) (emails_update (text response) st)
        (find_all_a (text response)).

(** One pass through the loop body, from [local_scraped_urls.add(url)] on;
    [st] holds the variables after [urls.popleft()]. *)
Definition iteration (max_urls : Z) (url : string) (st : crawl) : flow :=
  let st := scraped_add url st in
  match urlsplit url with
  | None => Raise
  | Some parts =>
      if negb (is_valid_url parts) then Continue st
      else
        let st := requested url st in
        match requests_get url with
        | None => Continue st
        | Some response =>
            if negb (status_code response =? 200)%Z then Break st
            else
              let st := scan_page parts url response st in
              if (max_urls <=? Z.of_nat (size (local_scraped_urls st)))%Z
              then Break st else Continue st
        end
  end.

(** [while urls:] with a bound on the number of passes; [None] when the
    bound is reached before the loop ends. *)
Fixpoint while_urls (fuel : nat) (max_urls : Z) (st : crawl) : option result :=
  match urls st with
  | [] => Some (Returned st)
  | url :: rest =>
      match fuel with
      | O => None
      | S fuel' =>
          match iteration max_urls url (popleft rest st) with
          | Continue st' => while_urls fuel' max_urls st'
          | Break st' => Some (Returned st')
          | Raise => Some Raised
          end
      end
  end.

Definition start (domain : string) : crawl := mkCrawl [domain] ∅ ∅ [].

Definition scrape_domain (fuel : nat) (domain : string) (max_urls : Z) : option result :=
  while_urls fuel max_urls (start domain).

(** The states of the crawl of [domain] at the test of [while urls:]. *)
Inductive at_loop_head (domain : string) (max_urls : Z) : crawl → Prop :=
| head_start : at_loop_head domain max_urls (start domain)
| head_next st url rest st' :
    at_loop_head domain max_urls st →
    urls st = url :: rest →
    iteration max_urls url (popleft rest st) = Continue st' →
    at_loop_head domain max_urls st'.

(** The states of the crawl of [domain] at the loop test or after a [break]. *)
Inductive reached (domain : string) (max_urls : Z) : crawl → Prop :=
| reached_head st : at_loop_head domain max_urls st → reached domain max_urls st
| reached_break st url rest st' :
    at_loop_head domain max_urls st →
    urls st = url :: rest →
    iteration max_urls url (popleft rest st) = Break st' →
    reached domain max_urls st'.

(** The addresses on the page that a request for [url] gets: those of the
    body when the answer is a 200, none otherwise. *)
Definition page_emails (url : string) : gset string :=
  match requests_get url with
  | Some response =>
      if (status_code response =? 200)%Z
      then list_to_set (EmailRe.findall (text response)) else ∅
  | None => ∅
  end.

(** The addresses on the pages of a list of requested URLs. *)
Definition emails_from (requests : list string) : gset string :=
  ⋃ (page_emails <$> requests).

(** What holds of the variables and the log throughout a crawl. *)
Record invariant (domain : string) (st : crawl) : Prop := mkInvariant {
  inv_fifo : domain :: appended (log st) = popped (log st) ++ urls st;
  inv_nodup : NoDup (popped (log st) ++ urls st);
  inv_scraped : local_scraped_urls st = list_to_set (popped (log st));
  inv_excluded : Forall (λ link, excluded link = false) (appended (log st));
  inv_emails : local_emails st = emails_from (fetched (log st));
  inv_fetched : sublist (fetched (log st)) (popped (log st))
}.

End Crawl.

(** ** The [emails] table *)

(** A value bound to a [?] of the [INSERT]: a Python [str] or [int]. *)
Inductive sql_param :=
| PText (s : string)
| PInt (z : Z).

(** A row of [emails (domain TEXT, email TEXT)]. *)
Definition row : Type := string * string.

(** What a column of type [TEXT] stores for a bound value: text as it is, an
    integer as its decimal text. *)
Definition as_text (v : sql_param) : string :=
  match v with
  | PText s => s
  | PInt z => pretty z
  end.

(** [INSERT OR IGNORE INTO emails (domain, email) VALUES (?, ?)] under
    [UNIQUE(domain, email)]: the row is added unless the table has it. *)
Definition insert_or_ignore (domain : string) (tbl : list row) (email : sql_param) : list row :=
  let r := (domain, as_text email) in
  if bool_decide (r ∈ tbl) then tbl else tbl ++ [r].

(** [save_to_db]: one [INSERT] per element of [emails], in iteration order. *)
Definition save_to_db (tbl : list row) (domain : string) (emails : list sql_param) : list row :=
  foldl (insert_or_ignore domain) tbl emails.

(** The row that [save_to_db(cursor, conn, domain, [0])] leaves. *)
Definition sentinel (domain : string) : row := (domain, as_text (PInt 0)).

(** Lines 132-136: [if emails_found: ... else: ...]; a set is true when it
    is not empty, and it is iterated in the order of [elements]. *)
Definition store_found (tbl : list row) (domain : string) (emails_found : gset string) : list row :=
  if bool_decide (emails_found = ∅) then save_to_db tbl domain [PInt 0]
  else save_to_db tbl domain (PText <$> elements emails_found).

(** How the processing of one domain ends. *)
Inductive outcome :=
| Saved (tbl : list row)
| Crashed.

Section Process.
Variable urlsplit : string → option SplitResult.
Variable requests_get : string → option Response.
Variable find_all_a : string → list (option string).

(** The body of [for domain in domains] ([process_single_domain] in the
    threaded variant). *)
Definition process_domain (fuel : nat) (max_urls : Z) (tbl : list row) (domain : string)
  : option outcome :=
  match scrape_domain urlsplit requests_get find_all_a fuel domain max_urls with
  | None => None
  | Some Raised => Some Crashed
  | Some (Returned st) => Some (Saved (store_found tbl domain (local_emails st)))
  end.

(** [process_domains_and_save_to_db] of [mail_miner.py]. *)
Fixpoint process_domains_and_save_to_db (fuel : nat) (domains : list string) (max_urls : Z)
    (tbl : list row) : option outcome :=
  match domains with
  | [] => Some (Saved tbl)
  | domain :: domains' =>
      match process_domain fuel max_urls tbl domain with
      | Some (Saved tbl') => process_domains_and_save_to_db fuel domains' max_urls tbl'
      | other => other
      end
  end.
End Process.

(** ** [load_domains_from_file] *)

Section Load.
Variable urlsplit : string → option SplitResult.

(** The list comprehension of line 28,
    [[line.strip() for line in file if is_valid_url(line.strip())]]:
    [None] when a call of [is_valid_url] raises. *)
Fixpoint valid_lines (lines : list string) : option (list string) :=
  match lines with
  | [] => Some []
  | line :: lines' =>
      match urlsplit (PyStr.strip line) with
      | None => None
      | Some parsed_url =>
          match valid_lines lines' with
          | None => None
          | Some domains =>
              Some (if is_valid_url parsed_url then PyStr.strip line :: domains
                    else domains)
          end
      end
  end.

(** [load_domains_from_file]; the file is given by the lines that reading
    it yields, [None] when opening or reading it raises.  Any exception ends
    in [return []]. *)
Definition load_domains_from_file (file : option (list string)) : list string :=
  match file with
  | None => []
  | Some lines => default [] (valid_lines lines)
  end.

End Load.

(** ** Passes that do not reach the test of the limit *)

Section Skips.
Variable urlsplit : string → option SplitResult.
Variable requests_get : string → option Response.

(** The pass for [url] ends in one of the two [continue] statements: the
    URL is not valid (line 78), or its request raises (line 92). *)
Definition skipped (url : string) : bool :=
  match urlsplit url with
  | Some parts =>
      negb (is_valid_url parts)
      || match requests_get url with Some _ => false | None => true end
  | None => false
  end.

End Skips.

(** ** The threaded variant *)

Section Threaded.
Variable urlsplit : string → option SplitResult.
Variable requests_get : string → option Response.
Variable find_all_a : string → list (option string).

(** [process_single_domain] of [mail_miner_mt.py]: the statements of the
    loop body of the sequential variant, with a [save_to_db] that holds the
    lock from its first insert to its commit. *)
Definition process_single_domain (fuel : nat) (max_urls : Z) (tbl : list row)
    (domain : string) : option outcome :=
  process_domain urlsplit requests_get find_all_a fuel max_urls tbl domain.

(** The workers that were submitted, listed in the order in which they take
    the lock to write: the table when all of them have finished, and the
    domains whose worker raised.  A worker that raises writes nothing and
    stops no other worker. *)
Fixpoint workers (fuel : nat) (order : list string) (max_urls : Z) (tbl : list row)
    : option (list row * list string) :=
  match order with
  | [] => Some (tbl, [])
  | domain :: order' =>
      match process_single_domain fuel max_urls tbl domain with
      | None => None
      | Some (Saved tbl') => workers fuel order' max_urls tbl'
      | Some Crashed =>
          match workers fuel order' max_urls tbl with
          | Some (tbl', failed) => Some (tbl', domain :: failed)
          | None => None
          end
      end
  end.

(** [process_domains_and_save_to_db] of [mail_miner_mt.py]: the table it
    leaves, and whether it raises.  [ThreadPoolExecutor] refuses a number of
    workers below one; otherwise leaving the [with] block waits for every
    worker, and [future.result()] raises what a worker raised. *)
Definition process_domains_threaded (fuel : nat) (threads : Z) (order : list string)
    (max_urls : Z) (tbl : list row) : option (list row * bool) :=
  if (threads <=? 0)%Z then Some (tbl, true)
  else
    match workers fuel order max_urls tbl with
    | Some (tbl', failed) => Some (tbl', bool_decide (failed ≠ []))
    | None => None
    end.

End Threaded.

(** ** Links and the pages they are on *)

Section Links.
Variable urlsplit : string → option SplitResult.
Variable requests_get : string → option Response.
Variable find_all_a : string → list (option string).

(** [link] is what an anchor of the page answered to [url] resolves to
    (lines 102-109), the answer being a 200. *)
Definition found_on (url link : string) : Prop :=
  ∃ parts response anchor,
    urlsplit url = Some parts
    ∧ requests_get url = Some response
    ∧ status_code response = 200%Z
    ∧ anchor ∈ find_all_a (text response)
    ∧ link = resolve (scheme parts +:+ "://" +:+ netloc parts) (path_prefix parts url)
                     (default "" anchor).

End Links.

(** ** Fixtures: small sites served from a table *)

Record page := mkPage {
  page_url : string;
  page_response : option Response;      (* [None]: the request raises *)
  page_anchors : list (option string)   (* [href] of each anchor of the body *)
}.

Module Site.
(** [requests.get] against the table: a URL that is not listed raises. *)
Fixpoint get (site : list page) (url : string) : option Response :=
  match site with
  | [] => None
  | p :: site' => if bool_decide (page_url p = url) then page_response p else get site' url
  end.

(** The anchors of a body: those of the first page that serves it. *)
Fixpoint anchors (site : list page) (body : string) : list (option string) :=
  match site with
  | [] => []
  | p :: site' =>
      if bool_decide (text <$> page_response p = Some body) then page_anchors p
      else anchors site' body
  end.

(** [scrape_domain] against the table. *)
Definition scrape (site : list page) (fuel : nat) (domain : string) (max_urls : Z)
  : option result :=
  scrape_domain UrlLib.urlsplit (get site) (anchors site) fuel domain max_urls.
End Site.

(** The two pages of the end-to-end example. *)
Definition two_pages : list page :=
  [ mkPage "http://a.test/"
      (Some (mkResponse 200 "contact us at info@a.test <a href='/about'>About</a>"))
      [Some "/about"];
    mkPage "http://a.test/about" (Some (mkResponse 200 "<p>sales@a.test</p>")) [] ].

(** Four pages, the third one fetched answers 404. *)
Definition third_is_404 : list page :=
  [ mkPage "http://a.test/"
      (Some (mkResponse 200 "one@a.test <a href='/p2'>2</a> <a href='/p3'>3</a> <a href='/p4'>4</a>"))
      [Some "/p2"; Some "/p3"; Some "/p4"];
    mkPage "http://a.test/p2" (Some (mkResponse 200 "two@a.test")) [];
    mkPage "http://a.test/p3" (Some (mkResponse 404 "three@a.test")) [];
    mkPage "http://a.test/p4" (Some (mkResponse 200 "four@a.test")) [] ].

(** A page with three links; the request for the first of them times out. *)
Definition first_link_times_out : list page :=
  [ mkPage "http://a.test/"
      (Some (mkResponse 200 "<a href='/a'>a</a> <a href='/b'>b</a> <a href='/c'>c</a>"))
      [Some "/a"; Some "/b"; Some "/c"];
    mkPage "http://a.test/a" None [];
    mkPage "http://a.test/b" (Some (mkResponse 200 "b")) [];
    mkPage "http://a.test/c" (Some (mkResponse 200 "c")) [] ].

(** A seed without a path, whose page links to [about]. *)
Definition seed_without_path : list page :=
  [ mkPage "http://a.test" (Some (mkResponse 200 "<a href='about'>About</a>")) [Some "about"] ].

(** A page below a directory with one anchor that has no [href]. *)
Definition anchor_without_href : list page :=
  [ mkPage "http://a.test/dir/page" (Some (mkResponse 200 "<a name='top'>Top</a>")) [None];
    mkPage "http://a.test/dir/" (Some (mkResponse 200 "index")) [] ].

(** A page without any e-mail address. *)
Definition no_emails : list page :=
  [ mkPage "http://b.test/" (Some (mkResponse 200 "<p>nothing here</p>")) [] ].

(** The variables of the crawl of [two_pages] when it returns. *)
Definition two_pages_end : crawl :=
  mkCrawl [] {[ "info@a.test"; "sales@a.test" ]} {[ "http://a.test/"; "http://a.test/about" ]}
    [ Popleft "http://a.test/"; Get "http://a.test/"; Append "http://a.test/about";
      Popleft "http://a.test/about"; Get "http://a.test/about" ].

(** The variables of the crawl of [third_is_404] after the first page, and
    at the loop test before the third page is taken off the deque. *)
Definition third_is_404_at_p2 : crawl :=
  mkCrawl [ "http://a.test/p2"; "http://a.test/p3"; "http://a.test/p4" ]
    {[ "one@a.test" ]} {[ "http://a.test/" ]}
    [ Popleft "http://a.test/"; Get "http://a.test/"; Append "http://a.test/p2";
      Append "http://a.test/p3"; Append "http://a.test/p4" ].
Definition third_is_404_at_p3 : crawl :=
  mkCrawl [ "http://a.test/p3"; "http://a.test/p4" ]
    {[ "one@a.test"; "two@a.test" ]} {[ "http://a.test/"; "http://a.test/p2" ]}
    [ Popleft "http://a.test/"; Get "http://a.test/"; Append "http://a.test/p2";
      Append "http://a.test/p3"; Append "http://a.test/p4";
      Popleft "http://a.test/p2"; Get "http://a.test/p2" ].

(** The variables of the crawl of [first_link_times_out] with
    [max_urls = 2] when it returns. *)
Definition first_link_times_out_end : crawl :=
  mkCrawl [ "http://a.test/c" ] ∅
    {[ "http://a.test/"; "http://a.test/a"; "http://a.test/b" ]}
    [ Popleft "http://a.test/"; Get "http://a.test/"; Append "http://a.test/a";
      Append "http://a.test/b"; Append "http://a.test/c";
      Popleft "http://a.test/a"; Get "http://a.test/a";
      Popleft "http://a.test/b"; Get "http://a.test/b" ].

(** The lines of a file of domains: a URL between blanks and ended by a
    newline, a line that is no URL, a URL of another scheme, an empty line
    and a second URL. *)
Definition domains_file : list string :=
  [ "  http://a.test/ " +:+ String "010" "";
    "not a url" +:+ String "010" "";
    "ftp://a.test/" +:+ String "010" "";
    String "010" "";
    "http://b.test/" ].

(** The pages of [no_emails] and of [two_pages] together. *)
Definition two_sites : list page := no_emails ++ two_pages.

(** A site on which the URL parser raises for the only link of the seed of
    [c.test], next to the pages of [two_sites]. *)
Definition three_sites : list page :=
  mkPage "http://c.test/" (Some (mkResponse 200 "<a href='http://[c/'>c</a>"))
         [Some "http://[c/"]
  :: two_sites.

(** * Properties *)

(** ** Strings *)

#[local] Arguments String.append !_ _ / : simpl nomatch.

Section StringFacts.
Import PyStr.

Lemma take_drop (n : nat) (s : string) : take n s +:+ drop n s = s.
Proof.
  revert s. induction n as [|n IH]; intros [|a s]; simpl; try reflexivity.
  by rewrite IH.
Qed.

Lemma append_empty_r (s : string) : s +:+ "" = s.
Proof. induction s as [|a s IH]; simpl; [done | by rewrite IH]. Qed.

Lemma length_app (s t : string) :
  String.length (s +:+ t) = (String.length s + String.length t)%nat.
Proof. induction s as [|a s IH]; simpl; [done | by rewrite IH]. Qed.

Lemma drop_app_length (s t : string) : drop (String.length s) (s +:+ t) = t.
Proof. induction s as [|a s IH]; simpl; [by destruct t | done]. Qed.

Lemma startswith_app (p s : string) : startswith p (p +:+ s) = true.
Proof. induction p as [|a p IH]; simpl; [done | by rewrite decide_True]. Qed.

Lemma startswith_split (p s : string) :
  startswith p s = true → ∃ t, s = p +:+ t.
Proof.
  revert s. induction p as [|a p IH]; intros s H; simpl in *; [by exists s |].
  destruct s as [|b s]; [done |]. case_decide; [subst | done].
  destruct (IH _ H) as [t ->]. by exists t.
Qed.

Lemma contains_here (p s : string) : startswith p s = true → contains p s = true.
Proof. intros H. destruct s; simpl in *; by rewrite H. Qed.

Lemma contains_later (p : string) (a : ascii) (s : string) :
  contains p s = true → contains p (String a s) = true.
Proof. intros H. simpl. rewrite H. apply orb_true_r. Qed.

Lemma contains_app (p pre post : string) : contains p (pre +:+ p +:+ post) = true.
Proof.
  induction pre as [|a pre IH]; simpl String.append.
  - apply contains_here, startswith_app.
  - by apply contains_later.
Qed.

Lemma contains_split (p s : string) :
  contains p s = true → ∃ pre post, s = pre +:+ p +:+ post.
Proof.
  induction s as [|a s IH]; simpl; intros H.
  - rewrite orb_false_r in H. destruct (startswith_split _ _ H) as [t ->].
    by exists "", t.
  - apply orb_true_iff in H as [H|H].
    + destruct (startswith_split _ _ H) as [t ->]. by exists "", t.
    + destruct (IH H) as (pre & post & ->). by exists (String a pre), post.
Qed.

Lemma endswith_split (p s : string) :
  endswith p s = true ↔ ∃ pre, s = pre +:+ p.
Proof.
  unfold endswith. rewrite andb_true_iff, bool_decide_eq_true, Nat.leb_le. split.
  - intros [_ H]. exists (take (String.length s - String.length p) s).
    pose proof (take_drop (String.length s - String.length p) s) as E.
    by rewrite H in E.
  - intros [pre ->]. rewrite length_app. split; [lia |].
    replace (String.length pre + String.length p - String.length p)%nat
      with (String.length pre) by lia.
    apply drop_app_length.
Qed.

(** A string that ends with [p] contains [p]. *)
Lemma endswith_contains (p s : string) : endswith p s = true → contains p s = true.
Proof.
  intros [pre ->]%endswith_split.
  pose proof (contains_app p pre "") as H. by rewrite append_empty_r in H.
Qed.

Lemma rfind_ge (c : ascii) (s : string) : (-1 ≤ rfind c s)%Z.
Proof.
  induction s as [|a s IH]; simpl; [lia |].
  destruct (Z.leb_spec 0 (rfind c s)); [lia |]. case_decide; lia.
Qed.

Lemma rfind_none (c : ascii) (s : string) :
  (rfind c s < 0)%Z ↔ contains (String c "") s = false.
Proof.
  induction s as [|a s IH]; simpl; [done |].
  destruct (Z.leb_spec 0 (rfind c s)) as [Hr|Hr].
  - split; [lia |]. intros [_ H]%orb_false_iff. apply IH in H. lia.
  - apply IH in Hr as Hs. rewrite Hs, orb_false_r.
    destruct (decide (c = a)) as [->|Hne].
    + rewrite decide_True by done. split; [lia | done].
    + rewrite (decide_False (P := a = c)) by done. split; [done | lia].
Qed.

(** [s[:s.rfind(c)+1]] is the part of [s] up to and including its last
    [c]: what follows it has no [c], and it ends with [c] when [s] has one. *)
Lemma upto_last_spec (c : ascii) (s : string) :
  ∃ tail, s = upto_last c s +:+ tail
          ∧ contains (String c "") tail = false
          ∧ (contains (String c "") s = true →
             endswith (String c "") (upto_last c s) = true).
Proof.
  unfold upto_last. induction s as [|a s (tail & Hs & Htail & Hend)].
  - by exists "".
  - simpl rfind. destruct (Z.leb_spec 0 (rfind c s)) as [Hr|Hr].
    + exists tail.
      replace (Z.to_nat (rfind c s + 1 + 1)) with (S (Z.to_nat (rfind c s + 1))) by lia.
      simpl take. split_and!; [simpl; by rewrite <- Hs | done |].
      intros _. destruct (contains (String c "") s) eqn:Hc.
      * apply endswith_split in Hend as [pre Hpre]; [| done].
        apply endswith_split. exists (String a pre). by rewrite Hpre.
      * apply rfind_none in Hc. lia.
    + apply rfind_none in Hr as Hc. destruct (decide (a = c)) as [->|Hne].
      * exists s. simpl. split_and!; [by destruct s | done |].
        intros _. apply endswith_split. by exists "".
      * exists (String a s). simpl. split_and!; [done | |].
        -- by rewrite decide_False, Hc.
        -- by rewrite decide_False, Hc.
  Qed.

End StringFacts.

(** ** The e-mail pattern *)

Section EmailFacts.
Import PyStr EmailRe.

(** A match has a character, then the rest of the local part, then [@]. *)
Lemma match_here_shape (s m : string) :
  match_here s = Some m → ∃ c local rest, m = String c (local +:+ "@" +:+ rest).
Proof.
  unfold match_here. destruct (span is_word s) as [[|c local] [|a rest]]; try done.
  case_bool_decide; [| done].
  destruct (span is_word rest) as [[|d0 d] _]; [done |].
  destruct (last_tld d) as [[host tld]|]; [| done].
  intros [= <-]. by eexists _, _, _.
Qed.

Lemma scan_shape (s : string) (k : nat) (m : string) :
  m ∈ scan k s → ∃ c local rest, m = String c (local +:+ "@" +:+ rest).
Proof.
  revert k. induction s as [|a s IH]; intros k; simpl; [by intros ?%elem_of_nil |].
  destruct k as [|k]; [| by apply IH].
  destruct (match_here (String a s)) as [m'|] eqn:Hm; [| by apply IH].
  intros [->|H]%elem_of_cons; [by eapply match_here_shape | by eapply IH].
Qed.

(** Every address that [findall] returns contains [@]. *)
Lemma findall_at (body m : string) : m ∈ findall body → contains "@" m = true.
Proof.
  intros (c & local & rest & ->)%scan_shape.
  apply (contains_app "@" (String c local) rest).
Qed.

(** No address that [findall] returns is the text of the integer 0. *)
Lemma findall_not_zero (body m : string) : m ∈ findall body → m ≠ as_text (PInt 0).
Proof. intros H%findall_at ->. vm_compute in H. done. Qed.

End EmailFacts.

(** ** The invariant of the crawl *)

Section LogFacts.

Lemma popped_snoc (l : list event) (e : event) :
  popped (l ++ [e]) = popped l ++ match e with Popleft u => [u] | _ => [] end.
Proof. unfold popped. rewrite omap_app. by destruct e. Qed.

Lemma fetched_snoc (l : list event) (e : event) :
  fetched (l ++ [e]) = fetched l ++ match e with Get u => [u] | _ => [] end.
Proof. unfold fetched. rewrite omap_app. by destruct e. Qed.

Lemma appended_snoc (l : list event) (e : event) :
  appended (l ++ [e]) = appended l ++ match e with Append u => [u] | _ => [] end.
Proof. unfold appended. rewrite omap_app. by destruct e. Qed.

End LogFacts.

Section CrawlFacts.
Variable urlsplit : string → option SplitResult.
Variable requests_get : string → option Response.
Variable find_all_a : string → list (option string).

#[local] Abbreviation iteration := (iteration urlsplit requests_get find_all_a).
#[local] Abbreviation while_urls := (while_urls urlsplit requests_get find_all_a).
#[local] Abbreviation scan_page := (scan_page find_all_a).
#[local] Abbreviation at_loop_head := (at_loop_head urlsplit requests_get find_all_a).
#[local] Abbreviation reached := (reached urlsplit requests_get find_all_a).
#[local] Abbreviation invariant := (invariant requests_get).
#[local] Abbreviation emails_from := (emails_from requests_get).
#[local] Abbreviation page_emails := (page_emails requests_get).

Lemma emails_from_snoc (l : list string) (u : string) :
  emails_from (l ++ [u]) = emails_from l ∪ page_emails u.
Proof.
  unfold emails_from. rewrite fmap_app, union_list_app_L. simpl.
  by rewrite (right_id_L ∅ (∪)).
Qed.

Lemma invariant_start (domain : string) : invariant domain (start domain).
Proof.
  split; simpl; try done. apply NoDup_singleton.
Qed.

(** Taking the head off the deque and adding it to the scraped set. *)
Lemma invariant_scraped_add (domain url : string) (rest : list string) (st : crawl) :
  invariant domain st → urls st = url :: rest →
  invariant domain (scraped_add url (popleft rest st)).
Proof.
  intros [Hfifo Hnodup Hscraped Hexcl Hemails Hfetched] Hurls.
  rewrite Hurls in *.
  split; simpl; rewrite ?popped_snoc, ?appended_snoc, ?fetched_snoc, ?app_nil_r.
  - by rewrite <- app_assoc.
  - by rewrite <- app_assoc.
  - rewrite list_to_set_app_L, Hscraped. simpl.
    by rewrite (right_id_L ∅ (∪)), (comm_L (∪)).
  - done.
  - done.
  - by apply sublist_inserts_r.
Qed.

Lemma invariant_visit_anchor (domain base_url path : string) (st : crawl)
    (anchor : option string) :
  invariant domain st → invariant domain (visit_anchor base_url path st anchor).
Proof.
  intros Hinv. unfold visit_anchor.
  destruct (enqueueable st _) eqn:Henq; [| done].
  apply andb_true_iff in Henq as [[Hurls Hscr]%andb_true_iff Hexc].
  apply bool_decide_eq_true in Hurls, Hscr. apply negb_true_iff in Hexc.
  destruct Hinv as [Hfifo Hnodup Hscraped Hexcl Hemails Hfetched].
  split; simpl; rewrite ?popped_snoc, ?appended_snoc, ?fetched_snoc, ?app_nil_r.
  - by rewrite app_assoc, <- Hfifo.
  - rewrite app_assoc. apply NoDup_app. split_and!; [done | | apply NoDup_singleton].
    intros x Hx ->%list_elem_of_singleton.
    apply elem_of_app in Hx as [Hx|Hx]; [| done].
    apply Hscr. rewrite Hscraped. by apply elem_of_list_to_set.
  - done.
  - apply Forall_app. split; [done | by constructor].
  - done.
  - done.
Qed.

Lemma invariant_anchors (domain base_url path : string) (anchors : list (option string))
    (st : crawl) :
  invariant domain st → invariant domain (foldl (visit_anchor base_url path) st anchors).
Proof.
  revert st. induction anchors as [|a anchors IH]; intros st Hinv; simpl; [done |].
  by apply IH, invariant_visit_anchor.
Qed.

(** The request for a URL that has just been taken off the deque. *)
Lemma invariant_requested (domain url : string) (st : crawl) (body : list string) :
  invariant domain st →
  (∃ l, popped (log st) = l ++ [url] ∧ sublist (fetched (log st)) l) →
  page_emails url = list_to_set body →
  invariant domain
    (mkCrawl (urls st) (local_emails st ∪ list_to_set body) (local_scraped_urls st)
             (log st ++ [Get url])).
Proof.
  intros [Hfifo Hnodup Hscraped Hexcl Hemails Hfetched] (l & Hl & Hsub) Hpage.
  split; simpl; rewrite ?popped_snoc, ?appended_snoc, ?fetched_snoc, ?app_nil_r; try done.
  - by rewrite emails_from_snoc, Hemails, Hpage.
  - rewrite Hl. by apply sublist_app.
Qed.

Lemma anchors_scraped (base_url path : string) (anchors : list (option string))
    (st : crawl) :
  local_scraped_urls (foldl (visit_anchor base_url path) st anchors)
  = local_scraped_urls st
  ∧ local_emails (foldl (visit_anchor base_url path) st anchors) = local_emails st.
Proof.
  revert st. induction anchors as [|a anchors IH]; intros st; simpl; [done |].
  destruct (IH (visit_anchor base_url path st a)) as [-> ->].
  unfold visit_anchor. by destruct (enqueueable _ _).
Qed.

(** The ways a pass can end, from what it met. *)
Lemma iteration_cases (max_urls : Z) (url : string) (st : crawl) :
  match urlsplit url with
  | None => iteration max_urls url st = Raise
  | Some parts =>
      if is_valid_url parts then
        match requests_get url with
        | None => iteration max_urls url st = Continue (requested url (scraped_add url st))
        | Some response =>
            if (status_code response =? 200)%Z then
              let st' := scan_page parts url response (requested url (scraped_add url st)) in
              if (max_urls <=? Z.of_nat (size (local_scraped_urls st')))%Z
              then iteration max_urls url st = Break st'
              else iteration max_urls url st = Continue st'
            else iteration max_urls url st = Break (requested url (scraped_add url st))
        end
      else iteration max_urls url st = Continue (scraped_add url st)
  end.
Proof.
  unfold iteration. destruct (urlsplit url) as [parts|]; [| done].
  destruct (is_valid_url parts); simpl; [| done].
  destruct (requests_get url) as [response|]; [| done].
  destruct (status_code response =? 200)%Z; simpl; [| done].
  by destruct (max_urls <=? _)%Z.
Qed.

Ltac iteration_cases K url st H :=
  let parts := fresh "parts" in
  let response := fresh "response" in
  let Hsplit := fresh "Hsplit" in
  let Hvalid := fresh "Hvalid" in
  let Hget := fresh "Hget" in
  let Hstatus := fresh "Hstatus" in
  let Hmax := fresh "Hmax" in
  pose proof (iteration_cases K url st) as H;
  destruct (urlsplit url) as [parts|] eqn:Hsplit;
  [ destruct (is_valid_url parts) eqn:Hvalid;
    [ destruct (requests_get url) as [response|] eqn:Hget;
      [ destruct (status_code response =? 200)%Z eqn:Hstatus;
        [ cbv zeta in H;
          destruct (K <=? Z.of_nat (size (local_scraped_urls
                      (scan_page parts url response (requested url (scraped_add url st))))))%Z
            eqn:Hmax
        | ]
      | ]
    | ]
  | ].

Lemma page_emails_200 (url : string) (response : Response) :
  requests_get url = Some response → (status_code response =? 200)%Z = true →
  page_emails url = list_to_set (EmailRe.findall (text response)).
Proof. unfold page_emails. by intros -> ->. Qed.

Lemma page_emails_other (url : string) :
  match requests_get url with
  | Some response => (status_code response =? 200)%Z = false
  | None => True
  end → page_emails url = ∅.
Proof. unfold page_emails. destruct (requests_get url); [by intros -> | done]. Qed.

Lemma invariant_skipped (domain url : string) (st : crawl) :
  invariant domain (scraped_add url st) → page_emails url = ∅ →
  sublist (fetched (log st)) (popped (log st)) →
  invariant domain (requested url (scraped_add url st)).
Proof.
  intros Hinv Hpage Hsub.
  pose proof (invariant_requested domain url (scraped_add url st) [] Hinv) as H.
  simpl in H. rewrite (right_id_L ∅ (∪)) in H. apply H; [| done].
  exists (popped (log st)). simpl. by rewrite popped_snoc, fetched_snoc, app_nil_r.
Qed.

Lemma invariant_scan_page (domain url : string) (parts : SplitResult)
    (response : Response) (st : crawl) :
  invariant domain (scraped_add url st) →
  sublist (fetched (log st)) (popped (log st)) →
  requests_get url = Some response → (status_code response =? 200)%Z = true →
  invariant domain (scan_page parts url response (requested url (scraped_add url st))).
Proof.
  intros Hinv Hsub Hget Hstatus. apply invariant_anchors.
  apply (invariant_requested domain url (scraped_add url st) _ Hinv).
  - exists (popped (log st)). simpl. by rewrite popped_snoc, fetched_snoc, app_nil_r.
  - by apply page_emails_200.
Qed.

(** A pass that ends normally keeps the invariant. *)
Lemma invariant_iteration (domain : string) (max_urls : Z) (url : string)
    (rest : list string) (st st' : crawl) :
  invariant domain st → urls st = url :: rest →
  flow_state (iteration max_urls url (popleft rest st)) = Some st' →
  invariant domain st'.
Proof.
  intros Hinv Hurls Hflow.
  pose proof (invariant_scraped_add _ _ _ _ Hinv Hurls) as Hadd.
  pose proof (inv_fetched _ _ _ Hinv) as Hsub.
  iteration_cases max_urls url (popleft rest st) H; rewrite H in Hflow;
    simpl in Hflow; simplify_eq; try done.
  - by apply invariant_scan_page.
  - by apply invariant_scan_page.
  - apply invariant_skipped; [done | | done].
    apply page_emails_other. by rewrite Hget.
  - apply invariant_skipped; [done | | done].
    apply page_emails_other. by rewrite Hget.
Qed.

Lemma at_loop_head_invariant (domain : string) (max_urls : Z) (st : crawl) :
  at_loop_head domain max_urls st → invariant domain st.
Proof.
  induction 1 as [|st url rest st' _ IH Hurls Hiter]; [apply invariant_start |].
  eapply invariant_iteration; [done.. |]. by rewrite Hiter.
Qed.

Lemma reached_invariant (domain : string) (max_urls : Z) (st : crawl) :
  reached domain max_urls st → invariant domain st.
Proof.
  intros [st' H|st0 url rest st' H%at_loop_head_invariant Hurls Hiter].
  - by eapply at_loop_head_invariant.
  - eapply invariant_iteration; [done.. |]. by rewrite Hiter.
Qed.

(** ** The loop: fuel, end states, termination *)

Lemma while_urls_more (max_urls : Z) (fuel extra : nat) (st : crawl) (r : result) :
  while_urls fuel max_urls st = Some r → while_urls (fuel + extra) max_urls st = Some r.
Proof.
  revert st. induction fuel as [|fuel IH]; intros st; simpl.
  - destruct (urls st) eqn:Hurls; [| done]. intros <-.
    destruct extra; simpl; by rewrite Hurls.
  - destruct (urls st) as [|url rest]; [done |].
    destruct (iteration _ _ _); [apply IH | done..].
Qed.

(** The result does not depend on the bound, once the bound is enough. *)
Lemma while_urls_agree (max_urls : Z) (n m : nat) (st : crawl) (r1 r2 : result) :
  while_urls n max_urls st = Some r1 → while_urls m max_urls st = Some r2 → r1 = r2.
Proof.
  intros H1 H2.
  apply (while_urls_more _ _ m) in H1. apply (while_urls_more _ _ n) in H2.
  rewrite (Nat.add_comm m n) in H2. congruence.
Qed.

Lemma while_urls_reached (domain : string) (max_urls : Z) (fuel : nat) (st fin : crawl) :
  at_loop_head domain max_urls st →
  while_urls fuel max_urls st = Some (Returned fin) →
  reached domain max_urls fin.
Proof.
  revert st. induction fuel as [|fuel IH]; intros st Hhead; simpl.
  - destruct (urls st); [| done]. intros [= <-]. by constructor.
  - destruct (urls st) as [|url rest] eqn:Hurls; [intros [= <-]; by constructor |].
    destruct (iteration _ _ _) as [st'|st'|] eqn:Hiter; [| | done].
    + apply IH. by eapply head_next.
    + intros [= <-]. by eapply reached_break.
Qed.

Lemma invariant_size (domain : string) (st : crawl) :
  invariant domain st → size (local_scraped_urls st) = length (popped (log st)).
Proof.
  intros [_ Hnodup Hscraped _ _ _]. rewrite Hscraped.
  apply size_list_to_set. by apply NoDup_app in Hnodup as [? _].
Qed.

(** The head of the deque has not been scraped. *)
Lemma invariant_head_fresh (domain url : string) (rest : list string) (st : crawl) :
  invariant domain st → urls st = url :: rest → url ∉ local_scraped_urls st.
Proof.
  intros [_ Hnodup Hscraped _ _ _] Hurls. rewrite Hscraped, Hurls in *.
  rewrite elem_of_list_to_set. apply NoDup_app in Hnodup as (_ & Hdisj & _).
  intros Hin. apply (Hdisj _ Hin). by left.
Qed.

(** A pass that ends normally adds exactly the URL it took to the scraped set. *)
Lemma iteration_scraped (max_urls : Z) (url : string) (st st' : crawl) :
  flow_state (iteration max_urls url st) = Some st' →
  local_scraped_urls st' = {[url]} ∪ local_scraped_urls st.
Proof.
  intros Hflow.
  iteration_cases max_urls url st H; rewrite H in Hflow; simpl in Hflow;
    simplify_eq; try done; unfold scan_page; by rewrite (proj1 (anchors_scraped _ _ _ _)).
Qed.

(** A pass that goes on to the loop test either leaves the deque as it was
    after the pop, or has not reached [max_urls]. *)
Lemma iteration_continue (max_urls : Z) (url : string) (st st' : crawl) :
  iteration max_urls url st = Continue st' →
  urls st' = urls st ∨ (Z.of_nat (size (local_scraped_urls st')) < max_urls)%Z.
Proof.
  intros Hiter.
  iteration_cases max_urls url st H; rewrite H in Hiter; simplify_eq; try by left.
  right. by apply Z.leb_gt.
Qed.

Lemma while_urls_terminates_from (domain : string) (max_urls : Z) (a b : nat) (st : crawl) :
  invariant domain st →
  (Z.to_nat (max_urls - Z.of_nat (size (local_scraped_urls st))) ≤ a)%nat →
  (length (urls st) ≤ b)%nat →
  ∃ fuel r, while_urls fuel max_urls st = Some r.
Proof.
  revert b st. induction a as [a IHa] using lt_wf_ind.
  induction b as [|b IHb]; intros st Hinv Ha Hb.
  { exists 0. simpl. destruct (urls st); [by eexists | simpl in Hb; lia]. }
  destruct (urls st) as [|url rest] eqn:Hurls.
  { exists 0. simpl. rewrite Hurls. by eexists. }
  destruct (iteration max_urls url (popleft rest st)) as [st'|st'|] eqn:Hiter.
  - assert (invariant domain st') as Hinv'.
    { eapply invariant_iteration; [done.. |]. by rewrite Hiter. }
    assert (size (local_scraped_urls st') = S (size (local_scraped_urls st))) as Hsize.
    { rewrite (iteration_scraped max_urls url (popleft rest st) st') by by rewrite Hiter.
      simpl. rewrite size_union, size_singleton; [done |].
      apply disjoint_singleton_l. by eapply invariant_head_fresh. }
    assert (∃ fuel r, while_urls fuel max_urls st' = Some r) as (fuel & r & Hrun).
    { destruct (iteration_continue _ _ _ _ Hiter) as [Hsame|Hless].
      - apply (IHb st' Hinv'); [lia |]. rewrite Hsame. simpl in *. lia.
      - apply (IHa (Z.to_nat (max_urls - Z.of_nat (size (local_scraped_urls st'))))
                   ltac:(lia) (length (urls st')) st' Hinv'); lia. }
    exists (S fuel), r. simpl. by rewrite Hurls, Hiter.
  - exists 1, (Returned st'). simpl. by rewrite Hurls, Hiter.
  - exists 1, Raised. simpl. by rewrite Hurls, Hiter.
Qed.

(** [scrape_domain] ends, whatever the site and the limit. *)
Lemma scrape_domain_terminates (domain : string) (max_urls : Z) :
  ∃ fuel r, scrape_domain urlsplit requests_get find_all_a fuel domain max_urls = Some r.
Proof.
  eapply (while_urls_terminates_from domain); [apply invariant_start | done..].
Qed.

(** The crawl of [domain] from a state at the loop test is the rest of
    [scrape_domain domain]. *)
Lemma at_loop_head_resume (domain : string) (max_urls : Z) (st : crawl) :
  at_loop_head domain max_urls st →
  ∃ n, ∀ fuel,
    scrape_domain urlsplit requests_get find_all_a (n + fuel) domain max_urls
    = while_urls fuel max_urls st.
Proof.
  induction 1 as [|st url rest st' _ [n IH] Hurls Hiter]; [by exists 0 |].
  exists (S n). intros fuel.
  replace (S n + fuel) with (n + S fuel) by lia.
  rewrite IH. simpl. by rewrite Hurls, Hiter.
Qed.

Lemma scrape_domain_from (domain : string) (max_urls : Z) (st : crawl) (k : nat)
    (r : result) :
  at_loop_head domain max_urls st →
  while_urls k max_urls st = Some r →
  ∃ n, ∀ fuel, (n ≤ fuel)%nat →
    scrape_domain urlsplit requests_get find_all_a fuel domain max_urls = Some r.
Proof.
  intros [n Hn]%at_loop_head_resume Hrun. exists (n + k). intros fuel Hle.
  replace fuel with (n + (k + (fuel - (n + k)))) by lia.
  rewrite Hn. by apply while_urls_more.
Qed.

(** ** Properties of one crawl *)

(** C1. Fail-fast on a status other than 200: when the crawl of [domain]
    is at the loop test with [url] at the head of the deque, and the request
    for [url] is answered with a status other than 200, [scrape_domain]
    returns from this very pass.  The URLs still on the deque stay there
    unrequested, [url] is the last request of the crawl, and the e-mails
    returned are those the crawl had before this pass, which are the ones
    found on the pages requested before. *)
Theorem C1_fail_fast_on_non_200 (domain : string) (max_urls : Z) (st : crawl)
    (url : string) (rest : list string) (parts : SplitResult) (response : Response) :
  at_loop_head domain max_urls st →
  urls st = url :: rest →
  urlsplit url = Some parts →
  is_valid_url parts = true →
  requests_get url = Some response →
  status_code response ≠ 200%Z →
  ∃ fin,
    (∃ n, ∀ fuel, (n ≤ fuel)%nat →
       scrape_domain urlsplit requests_get find_all_a fuel domain max_urls
       = Some (Returned fin))
    ∧ urls fin = rest
    ∧ log fin = log st ++ [Popleft url; Get url]
    ∧ fetched (log fin) = fetched (log st) ++ [url]
    ∧ local_emails fin = local_emails st
    ∧ local_emails fin = emails_from (fetched (log st)).
Proof.
  intros Hhead Hurls Hsplit Hvalid Hget Hstatus.
  pose proof (iteration_cases max_urls url (popleft rest st)) as Hiter.
  rewrite Hsplit, Hvalid, Hget in Hiter.
  apply Z.eqb_neq in Hstatus. rewrite Hstatus in Hiter.
  exists (requested url (scraped_add url (popleft rest st))). split_and!.
  - apply (scrape_domain_from domain max_urls st 1); [done |].
    simpl. by rewrite Hurls, Hiter.
  - done.
  - simpl. by rewrite <- app_assoc.
  - simpl. by rewrite fetched_snoc, fetched_snoc, app_nil_r.
  - done.
  - simpl. by apply at_loop_head_invariant in Hhead as [].
Qed.

(** C4. At-most-once visiting: at every loop test and after a [break] of
    the crawl of [domain], the URLs taken off the deque so far are pairwise
    distinct, and so are the requests, the URLs on the deque, and the seed
    together with every link ever appended; no URL on the deque is in the
    scraped set, and the scraped set is the set of URLs taken off.  A link
    that is on the deque or in the scraped set is not appended. *)
Theorem C4_at_most_once (domain : string) (max_urls : Z) (st : crawl) :
  reached domain max_urls st →
  NoDup (popped (log st))
  ∧ NoDup (fetched (log st))
  ∧ NoDup (urls st)
  ∧ NoDup (domain :: appended (log st))
  ∧ (∀ url, url ∈ urls st → url ∉ local_scraped_urls st)
  ∧ (∀ url, url ∈ local_scraped_urls st ↔ url ∈ popped (log st))
  ∧ (∀ base_url path anchor,
       let link := resolve base_url path (default "" anchor) in
       link ∈ urls st ∨ link ∈ local_scraped_urls st →
       visit_anchor base_url path st anchor = st).
Proof.
  intros [Hfifo Hnodup Hscraped _ _ Hfetched]%reached_invariant.
  pose proof Hnodup as (Hpop & Hdisj & Hurls)%NoDup_app.
  split_and!; try done.
  - apply (sublist_NoDup _ _ Hpop Hfetched).
  - by rewrite Hfifo.
  - intros url Hin. rewrite Hscraped, elem_of_list_to_set. intros Hp.
    by apply (Hdisj _ Hp).
  - intros url. by rewrite Hscraped, elem_of_list_to_set.
  - intros base_url path anchor link Hin. unfold visit_anchor, enqueueable.
    fold link. destruct Hin as [Hin|Hin].
    + by rewrite (bool_decide_eq_false_2 (link ∉ urls st)) by auto.
    + rewrite (bool_decide_eq_false_2 (link ∉ local_scraped_urls st)) by auto.
      by rewrite andb_false_r.
Qed.

Lemma excluded_false (link ext : string) :
  excluded link = false → ext ∈ exclusion_list → PyStr.contains ext link = false.
Proof.
  unfold excluded. intros Hex Hin.
  destruct (PyStr.contains ext link) eqn:Hc; [| done].
  assert (existsb (λ x, PyStr.contains x link) exclusion_list = true); [| congruence].
  apply existsb_exists. exists ext. split; [by apply list_elem_of_In | done].
Qed.

Lemma reached_appended (domain : string) (max_urls : Z) (st : crawl) (link : string) :
  reached domain max_urls st → link ∈ appended (log st) → excluded link = false.
Proof.
  intros [_ _ _ Hexcl _ _]%reached_invariant Hin.
  by apply (proj1 (Forall_forall _ _) Hexcl).
Qed.

Lemma reached_urls (domain : string) (max_urls : Z) (st : crawl) (url : string) :
  reached domain max_urls st → url ∈ urls st → url = domain ∨ url ∈ appended (log st).
Proof.
  intros [Hfifo _ _ _ _ _]%reached_invariant Hin.
  assert (url ∈ domain :: appended (log st)) as H.
  { rewrite Hfifo. apply elem_of_app. by right. }
  by apply elem_of_cons in H.
Qed.

(** C7. Exclusion filter: at every loop test and after a [break] of the
    crawl of [domain], no link that was appended to the deque ends in
    [.pdf], [.jpg], [.jpeg] or [.png]; so no URL on the deque other than the
    seed does, and no request other than one for the seed is for such a URL. *)
Theorem C7_exclusion_filter (domain : string) (max_urls : Z) (st : crawl)
    (ext : string) :
  reached domain max_urls st →
  ext ∈ [".pdf"; ".jpg"; ".jpeg"; ".png"] →
  (∀ link, link ∈ appended (log st) → PyStr.endswith ext link = false)
  ∧ (∀ url, url ∈ urls st → url ≠ domain → PyStr.endswith ext url = false)
  ∧ (∀ url, url ∈ fetched (log st) → url ≠ domain → PyStr.endswith ext url = false).
Proof.
  intros Hreached Hext.
  assert (ext ∈ exclusion_list) as Hext'.
  { unfold exclusion_list. rewrite !elem_of_cons in *. tauto. }
  assert (∀ link, link ∈ appended (log st) → PyStr.endswith ext link = false) as Happ.
  { intros link Hin. destruct (PyStr.endswith ext link) eqn:Hend; [| done].
    apply endswith_contains in Hend.
    by rewrite (excluded_false link ext (reached_appended _ _ _ _ Hreached Hin) Hext')
      in Hend. }
  split_and!; [done | |].
  - intros url Hin Hne. destruct (reached_urls _ _ _ _ Hreached Hin); [done | auto].
  - intros url Hin Hne.
    pose proof (reached_invariant _ _ _ Hreached) as [Hfifo _ _ _ _ Hfetched].
    assert (url ∈ domain :: appended (log st)) as H.
    { rewrite Hfifo. apply elem_of_app. left. by eapply elem_of_sublist. }
    apply elem_of_cons in H as [?|?]; [done | auto].
Qed.

(** C10. Substring-based exclusion: at every loop test and after a
    [break] of the crawl of [domain], no link that was appended to the deque
    contains [.jpg], [.jpeg], [.pdf] or [.png] anywhere, and a link that
    contains one of them is not appended.  This excludes more than the URLs
    that end in one of the four: [http://a.test/.pdf-tools/index.html] is
    excluded and ends in none of them. *)
Theorem C10_substring_exclusion (domain : string) (max_urls : Z) (st : crawl)
    (ext : string) :
  reached domain max_urls st →
  ext ∈ [".jpg"; ".jpeg"; ".pdf"; ".png"] →
  (∀ link, link ∈ appended (log st) → PyStr.contains ext link = false)
  ∧ (∀ base_url path anchor,
       PyStr.contains ext (resolve base_url path (default "" anchor)) = true →
       visit_anchor base_url path st anchor = st)
  ∧ (∀ link, PyStr.endswith ext link = true → excluded link = true)
  ∧ excluded "http://a.test/.pdf-tools/index.html" = true
  ∧ Forall (λ x, PyStr.endswith x "http://a.test/.pdf-tools/index.html" = false)
           exclusion_list.
Proof.
  intros Hreached Hext. change (ext ∈ exclusion_list) in Hext.
  assert (∀ link, PyStr.contains ext link = true → excluded link = true) as Hexc.
  { intros link Hc. destruct (excluded link) eqn:He; [done |].
    by rewrite (excluded_false link ext He Hext) in Hc. }
  split_and!.
  - intros link Hin.
    by apply excluded_false; [eapply reached_appended |].
  - intros base_url path anchor Hc. unfold visit_anchor, enqueueable.
    by rewrite (Hexc _ Hc), andb_false_r.
  - intros link Hend. by apply Hexc, endswith_contains.
  - reflexivity.
  - by repeat constructor.
Qed.

End CrawlFacts.

(** ** The table *)

Section StoreFacts.

Lemma insert_or_ignore_elem (domain : string) (tbl : list row) (email : sql_param)
    (r : row) :
  r ∈ insert_or_ignore domain tbl email ↔ r ∈ tbl ∨ r = (domain, as_text email).
Proof.
  unfold insert_or_ignore. case_bool_decide as Hin.
  - split; [by left | by intros [?| ->]].
  - rewrite elem_of_app, list_elem_of_singleton. done.
Qed.

Lemma insert_or_ignore_NoDup (domain : string) (tbl : list row) (email : sql_param) :
  NoDup tbl → NoDup (insert_or_ignore domain tbl email).
Proof.
  intros Hnodup. unfold insert_or_ignore. case_bool_decide as Hin; [done |].
  apply NoDup_app. split_and!; [done | | apply NoDup_singleton].
  by intros x Hx ->%list_elem_of_singleton.
Qed.

Lemma save_to_db_elem (domain : string) (emails : list sql_param) (tbl : list row)
    (r : row) :
  r ∈ save_to_db tbl domain emails
  ↔ r ∈ tbl ∨ ∃ email, email ∈ emails ∧ r = (domain, as_text email).
Proof.
  unfold save_to_db. revert tbl.
  induction emails as [|e emails IH]; intros tbl; simpl.
  - split; [by left |]. intros [?|(? & []%elem_of_nil & _)]. done.
  - rewrite IH, insert_or_ignore_elem. split.
    + intros [[?| ->]|(e' & ? & ->)]; [by left | right..].
      * exists e. split; [by left | done].
      * exists e'. split; [by right | done].
    + intros [?|(e' & [->|?]%elem_of_cons & ->)]; [by left; left | by left; right |].
      right. by exists e'.
Qed.

Lemma save_to_db_NoDup (domain : string) (emails : list sql_param) (tbl : list row) :
  NoDup tbl → NoDup (save_to_db tbl domain emails).
Proof.
  unfold save_to_db. revert tbl.
  induction emails as [|e emails IH]; intros tbl Hnodup; simpl; [done |].
  by apply IH, insert_or_ignore_NoDup.
Qed.

(** Writing rows that the table already has changes nothing. *)
Lemma save_to_db_present (domain : string) (emails : list sql_param) (tbl : list row) :
  (∀ email, email ∈ emails → (domain, as_text email) ∈ tbl) →
  save_to_db tbl domain emails = tbl.
Proof.
  unfold save_to_db. induction emails as [|e emails IH]; intros Hall; simpl; [done |].
  unfold insert_or_ignore at 2. rewrite bool_decide_eq_true_2.
  - apply IH. intros e' He'. apply Hall. by right.
  - apply Hall. by left.
Qed.

Lemma save_to_db_again (domain : string) (emails : list sql_param) (tbl : list row) :
  save_to_db (save_to_db tbl domain emails) domain emails = save_to_db tbl domain emails.
Proof.
  apply save_to_db_present. intros e He. apply save_to_db_elem. right. by exists e.
Qed.

Lemma store_found_again (domain : string) (found : gset string) (tbl : list row) :
  store_found (store_found tbl domain found) domain found = store_found tbl domain found.
Proof. unfold store_found. case_bool_decide; apply save_to_db_again. Qed.

Lemma store_found_NoDup (domain : string) (found : gset string) (tbl : list row) :
  NoDup tbl → NoDup (store_found tbl domain found).
Proof. unfold store_found. case_bool_decide; apply save_to_db_NoDup. Qed.

(** The rows after the results of one domain are written. *)
Lemma store_found_elem (domain : string) (found : gset string) (tbl : list row) (r : row) :
  r ∈ store_found tbl domain found
  ↔ r ∈ tbl
    ∨ (found = ∅ ∧ r = sentinel domain)
    ∨ (∃ email, email ∈ found ∧ r = (domain, email)).
Proof.
  unfold store_found. case_bool_decide as Hempty; rewrite save_to_db_elem.
  - subst found. split.
    + intros [?|(e & ->%list_elem_of_singleton & ->)]; [by left | by right; left].
    + intros [?|[[_ ->]|(e & []%not_elem_of_empty & _)]]; [by left |].
      right. exists (PInt 0). split; [by left | done].
  - split.
    + intros [?|(e & (x & -> & Hx%elem_of_elements)%list_elem_of_fmap & ->)];
        [by left |]. right; right. by exists x.
    + intros [?|[[? _]|(x & Hx & ->)]]; [by left | done |].
      right. exists (PText x). split; [| done].
      apply list_elem_of_fmap. exists x. by rewrite elem_of_elements.
Qed.

End StoreFacts.

(** ** Properties of the stored rows *)

Section ProcessFacts.
Variable urlsplit : string → option SplitResult.
Variable requests_get : string → option Response.
Variable find_all_a : string → list (option string).

#[local] Abbreviation scrape_domain := (scrape_domain urlsplit requests_get find_all_a).
#[local] Abbreviation process_domain := (process_domain urlsplit requests_get find_all_a).

(** Every address that a crawl returns was matched by the pattern on some
    response text. *)
Lemma returned_emails_matched (domain : string) (max_urls : Z) (fuel : nat)
    (fin : crawl) (email : string) :
  scrape_domain fuel domain max_urls = Some (Returned fin) →
  email ∈ local_emails fin →
  ∃ body, email ∈ EmailRe.findall body.
Proof.
  intros Hrun Hin.
  eapply while_urls_reached in Hrun; [| apply head_start].
  apply reached_invariant in Hrun as [_ _ _ _ Hemails _].
  rewrite Hemails in Hin. unfold emails_from in Hin.
  apply elem_of_union_list in Hin as (X & (url & -> & _)%list_elem_of_fmap & Hin).
  unfold page_emails in Hin. destruct (requests_get url) as [response|].
  - destruct (status_code response =? 200)%Z.
    + exists (text response). by apply elem_of_list_to_set in Hin.
    + by apply not_elem_of_empty in Hin.
  - by apply not_elem_of_empty in Hin.
Qed.

Lemma process_domain_saved (fuel : nat) (max_urls : Z) (tbl tbl' : list row)
    (domain : string) :
  process_domain fuel max_urls tbl domain = Some (Saved tbl') →
  ∃ fin, scrape_domain fuel domain max_urls = Some (Returned fin)
         ∧ tbl' = store_found tbl domain (local_emails fin).
Proof.
  unfold process_domain.
  destruct (scrape_domain fuel domain max_urls) as [[fin|]|]; [| done..].
  intros [= <-]. by exists fin.
Qed.

(** C8. Dedup and idempotence: when [domain] is processed twice against
    the same site, starting from a table without repeated rows, the two
    crawls return the same variables, hence the same set of e-mails; the
    table has no repeated (domain, email) row after the first write nor
    after the second, and the second write leaves the table as it was. *)
Theorem C8_dedup_idempotent (domain : string) (max_urls : Z) (n m : nat)
    (tbl tbl1 tbl2 : list row) :
  NoDup tbl →
  process_domain n max_urls tbl domain = Some (Saved tbl1) →
  process_domain m max_urls tbl1 domain = Some (Saved tbl2) →
  (∃ fin, scrape_domain n domain max_urls = Some (Returned fin)
          ∧ scrape_domain m domain max_urls = Some (Returned fin))
  ∧ NoDup tbl1 ∧ NoDup tbl2 ∧ tbl2 = tbl1.
Proof.
  intros Hnodup (fin1 & Hrun1 & ->)%process_domain_saved
                (fin2 & Hrun2 & ->)%process_domain_saved.
  pose proof (while_urls_agree _ _ _ _ _ _ _ _ _ Hrun1 Hrun2) as [= <-].
  rewrite store_found_again.
  split_and!; [by exists fin1 | by apply store_found_NoDup.. | done].
Qed.

(** C9. Empty-result sentinel: when the crawl of [domain] returns, its
    result is written to the table.  If no e-mail was found the table then
    has the sentinel row of [domain]; if some were found the table has a row
    for each of them and the sentinel row only if it had it before.  Rows
    of the table are kept, and the rows of other domains are the same as
    before, so a domain that was never processed has no row at all. *)
Theorem C9_empty_result_sentinel (domain : string) (max_urls : Z) (fuel : nat)
    (tbl : list row) (fin : crawl) :
  scrape_domain fuel domain max_urls = Some (Returned fin) →
  ∃ tbl',
    process_domain fuel max_urls tbl domain = Some (Saved tbl')
    ∧ (local_emails fin = ∅ → sentinel domain ∈ tbl')
    ∧ (local_emails fin ≠ ∅ →
         (∀ email, email ∈ local_emails fin → (domain, email) ∈ tbl')
         ∧ (sentinel domain ∈ tbl' → sentinel domain ∈ tbl))
    ∧ (∀ r, r ∈ tbl → r ∈ tbl')
    ∧ (∀ d email, d ≠ domain → (d, email) ∈ tbl' → (d, email) ∈ tbl).
Proof.
  intros Hrun. exists (store_found tbl domain (local_emails fin)).
  unfold process_domain. rewrite Hrun. split_and!; [done | ..].
  - intros Hempty. apply store_found_elem. right; left. done.
  - intros Hfound. split.
    + intros email Hin. apply store_found_elem. right; right. by exists email.
    + intros [?|[[? _]|(email & Hin & Heq)]]%store_found_elem; [done..|].
      destruct (returned_emails_matched _ _ _ _ _ Hrun Hin) as [body Hbody].
      apply findall_not_zero in Hbody. unfold sentinel in Heq. congruence.
  - intros r Hr. apply store_found_elem. by left.
  - intros d email Hne [?|[[_ Heq]|(e & _ & Heq)]]%store_found_elem; [done | ..].
    + unfold sentinel in Heq. congruence.
    + congruence.
Qed.

(** ** The whole list of domains *)

Lemma process_domains_keeps (fuel : nat) (domains : list string) (max_urls : Z)
    (tbl tbl' : list row) (r : row) :
  process_domains_and_save_to_db urlsplit requests_get find_all_a fuel domains max_urls tbl
  = Some (Saved tbl') →
  r ∈ tbl → r ∈ tbl'.
Proof.
  revert tbl. induction domains as [|domain domains IH]; intros tbl; simpl.
  - by intros [= <-].
  - destruct (process_domain fuel max_urls tbl domain) as [[tbl1|]|] eqn:Hone; [| done..].
    intros Hrest Hin. apply (IH _ Hrest).
    apply process_domain_saved in Hone as (fin & _ & ->).
    apply store_found_elem. by left.
Qed.

(** The rows of a domain that is not in the list are those the table had
    before. *)
Lemma not_processed_rows (fuel : nat) (domains : list string) (max_urls : Z)
    (tbl tbl' : list row) (d email : string) :
  process_domains_and_save_to_db urlsplit requests_get find_all_a fuel domains max_urls tbl
  = Some (Saved tbl') →
  d ∉ domains → (d, email) ∈ tbl' → (d, email) ∈ tbl.
Proof.
  revert tbl. induction domains as [|domain domains IH]; intros tbl; simpl.
  - by intros [= <-].
  - destruct (process_domain fuel max_urls tbl domain) as [[tbl1|]|] eqn:Hone; [| done..].
    intros Hrest [Hne Hnotin]%not_elem_of_cons Hin.
    apply process_domain_saved in Hone as (fin & _ & ->).
    apply (IH _ Hrest Hnotin) in Hin.
    apply store_found_elem in Hin as [?|[[_ Heq]|(e & _ & Heq)]]; [done | ..].
    + unfold sentinel in Heq. congruence.
    + congruence.
Qed.

(** Every domain of the list has a row afterwards. *)
Lemma processed_has_row (fuel : nat) (domains : list string) (max_urls : Z)
    (tbl tbl' : list row) (d : string) :
  process_domains_and_save_to_db urlsplit requests_get find_all_a fuel domains max_urls tbl
  = Some (Saved tbl') →
  d ∈ domains → ∃ email, (d, email) ∈ tbl'.
Proof.
  revert tbl. induction domains as [|domain domains IH]; intros tbl; simpl.
  - by intros _ ?%elem_of_nil.
  - destruct (process_domain fuel max_urls tbl domain) as [[tbl1|]|] eqn:Hone; [| done..].
    intros Hrest [->|Hin]%elem_of_cons; [| by eapply IH].
    apply process_domain_saved in Hone as (fin & _ & ->).
    destruct (decide (local_emails fin = ∅)) as [Hempty|Hfound].
    + exists (as_text (PInt 0)). apply (process_domains_keeps _ _ _ _ _ _ Hrest).
      apply store_found_elem. right; left. done.
    + apply set_choose_L in Hfound as [email Hemail]. exists email.
      apply (process_domains_keeps _ _ _ _ _ _ Hrest).
      apply store_found_elem. right; right. by exists email.
Qed.

End ProcessFacts.

(** ** Resolution of links *)

Section ResolveFacts.
Import PyStr.

(** C5. Relative resolution, as the code has it: for a link that begins
    neither with [/] nor with [http], the normalized URL is the current
    page's path prefix followed by the link.  When the path component of the
    current URL contains a [/], the prefix is the URL up to and including
    its last [/]: what remains of the URL after it has no [/], and it ends
    in [/] when the URL has one.  When the path component contains no [/],
    the prefix is the whole current URL. *)
Theorem C5_relative_resolution (parts : SplitResult) (url href : string) :
  startswith "/" href = false →
  startswith "http" href = false →
  let base_url := scheme parts +:+ "://" +:+ netloc parts in
  let link := resolve base_url (path_prefix parts url) href in
  (contains "/" (path parts) = true →
     ∃ dir tail,
       url = dir +:+ tail ∧ contains "/" tail = false
       ∧ (contains "/" url = true → endswith "/" dir = true)
       ∧ dir = upto_last "/" url
       ∧ link = dir +:+ href)
  ∧ (contains "/" (path parts) = false → link = url +:+ href).
Proof.
  intros Hslash Hhttp base_url link. subst link. unfold resolve, path_prefix.
  rewrite Hslash, Hhttp. simpl negb. cbv iota. split; intros Hpath; rewrite Hpath.
  - destruct (upto_last_spec "/" url) as (tail & Hurl & Htail & Hend).
    by exists (upto_last "/" url), tail.
  - done.
Qed.

(** C6. An anchor without [href], as the code has it: its link is the
    empty string, which resolves to the path prefix of the current page.
    That URL is appended to the deque exactly when it is not on the deque,
    not in the scraped set and contains no excluded extension; otherwise the
    anchor changes nothing. *)
Theorem C6_missing_href (base_url path : string) (st : crawl) :
  resolve base_url path (default "" None) = path
  ∧ visit_anchor base_url path st None
    = (if enqueueable st path
       then mkCrawl (urls st ++ [path]) (local_emails st) (local_scraped_urls st)
                    (log st ++ [Append path])
       else st)
  ∧ (enqueueable st path = true
     ↔ (path ∉ urls st) ∧ (path ∉ local_scraped_urls st) ∧ excluded path = false).
Proof.
  assert (resolve base_url path (default "" None) = path) as Hres.
  { unfold resolve. simpl. apply append_empty_r. }
  split_and!; [done | unfold visit_anchor; by rewrite Hres |].
  unfold enqueueable.
  rewrite !andb_true_iff, !bool_decide_eq_true, negb_true_iff. tauto.
Qed.

End ResolveFacts.

(** ** Runs against the fixtures *)

Example findall_ex1 :
  EmailRe.findall "contact us at info@a.test <a href='/about'>About</a>" = ["info@a.test"].
Proof. reflexivity. Qed.

Example findall_ex2 :
  EmailRe.findall "a@b.com.9x@y.zz, ab@cd A.B@C-d.Ef.G9"
  = ["a@b.com"; ".9x@y.zz"; "A.B@C-d.Ef.G"].
Proof. reflexivity. Qed.

Example upto_last_ex :
  PyStr.rfind "/" "http://a.test/x/about" = 15%Z
  ∧ PyStr.upto_last "/" "http://a.test/x/about" = "http://a.test/x/"
  ∧ PyStr.upto_last "/" "abc" = "".
Proof. by split_and!. Qed.

Example urlsplit_ex1 :
  UrlLib.urlsplit "HTTP://a.test/x/y?q=1#f" = Some (mkSplit "http" "a.test" "/x/y" "q=1" "f").
Proof. reflexivity. Qed.
Example urlsplit_ex2 : UrlLib.urlsplit "http://a.test" = Some (mkSplit "http" "a.test" "" "" "").
Proof. reflexivity. Qed.
Example urlsplit_ex3 : UrlLib.urlsplit "about.html" = Some (mkSplit "" "" "about.html" "" "").
Proof. reflexivity. Qed.
Example urlsplit_ex4 : UrlLib.urlsplit "mailto:x@y.z" = Some (mkSplit "mailto" "" "x@y.z" "" "").
Proof. reflexivity. Qed.
Example urlsplit_ex5 : UrlLib.urlsplit "http://[::1/x" = None.
Proof. reflexivity. Qed.

Example two_pages_run :
  Site.scrape two_pages 5 "http://a.test/" 10 = Some (Returned (mkCrawl [] {[ "info@a.test"; "sales@a.test" ]} {[ "http://a.test/"; "http://a.test/about" ]}
   [Popleft "http://a.test/"; Get "http://a.test/"; Append "http://a.test/about"; Popleft "http://a.test/about"; Get "http://a.test/about"])).
Proof. vm_compute. reflexivity. Qed.



Lemma scrape_from (site : list page) (domain : string) (max_urls : Z) (k : nat)
    (r : result) :
  Site.scrape site k domain max_urls = Some r →
  ∀ fuel, (k ≤ fuel)%nat → Site.scrape site fuel domain max_urls = Some r.
Proof.
  intros Hrun fuel Hle. replace fuel with (k + (fuel - k)) by lia.
  by apply while_urls_more.
Qed.

(** C3. The end-to-end example: against [two_pages], the crawl of
    [http://a.test/] with [max_urls = 10] returns, for every bound of at
    least two passes, with the e-mails [info@a.test] and [sales@a.test] and
    with two scraped URLs, the seed and [http://a.test/about]. *)
Theorem C3_end_to_end_example :
  ∃ fin,
    (∀ fuel, (2 ≤ fuel)%nat →
       Site.scrape two_pages fuel "http://a.test/" 10 = Some (Returned fin))
    ∧ local_emails fin = {[ "info@a.test"; "sales@a.test" ]}
    ∧ local_scraped_urls fin = {[ "http://a.test/"; "http://a.test/about" ]}
    ∧ size (local_scraped_urls fin) = 2
    ∧ fetched (log fin) = [ "http://a.test/"; "http://a.test/about" ].
Proof.
  exists two_pages_end. split_and!; [| done | done | by vm_compute | done].
  apply scrape_from. by vm_compute.
Qed.

(** C2. The bound is exceeded: against [first_link_times_out], where the
    request for the first of three links raises, the crawl with
    [max_urls = 2] takes three URLs off the deque and returns a scraped set
    of three; the third, [http://a.test/b], is requested although the set
    already had two elements. *)
Theorem C2_bound_exceeded :
  ∃ fin,
    (∀ fuel, (3 ≤ fuel)%nat →
       Site.scrape first_link_times_out fuel "http://a.test/" 2 = Some (Returned fin))
    ∧ size (local_scraped_urls fin) = 3
    ∧ popped (log fin) = [ "http://a.test/"; "http://a.test/a"; "http://a.test/b" ]
    ∧ fetched (log fin) = [ "http://a.test/"; "http://a.test/a"; "http://a.test/b" ]
    ∧ Site.get first_link_times_out "http://a.test/a" = None.
Proof.
  eexists. split_and!; [apply scrape_from; by vm_compute | by vm_compute.. ].
Qed.

(** C5, as stated, fails for a seed without a path: [urlsplit] gives
    [http://a.test] an empty path, the link [about] begins neither with [/]
    nor with [http], and the normalized URL is [http://a.testabout], whereas
    the URL up to its last [/] followed by the link is [http://about]; the
    crawl appends and requests [http://a.testabout]. *)
Lemma C5_counterexample :
  ∃ parts fin,
    UrlLib.urlsplit "http://a.test" = Some parts
    ∧ PyStr.contains "/" (path parts) = false
    ∧ PyStr.startswith "/" "about" = false
    ∧ PyStr.startswith "http" "about" = false
    ∧ resolve (scheme parts +:+ "://" +:+ netloc parts)
              (path_prefix parts "http://a.test") "about" = "http://a.testabout"
    ∧ PyStr.upto_last "/" "http://a.test" +:+ "about" = "http://about"
    ∧ resolve (scheme parts +:+ "://" +:+ netloc parts)
              (path_prefix parts "http://a.test") "about"
      ≠ PyStr.upto_last "/" "http://a.test" +:+ "about"
    ∧ Site.scrape seed_without_path 2 "http://a.test" 10 = Some (Returned fin)
    ∧ appended (log fin) = [ "http://a.testabout" ].
Proof.
  eexists _, _. split_and!; [reflexivity | by vm_compute.. ].
Qed.

(** C6, as stated, fails: on the page [http://a.test/dir/page], whose
    only anchor has no [href], the crawl appends [http://a.test/dir/] to the
    deque and then requests it. *)
Lemma C6_counterexample :
  ∃ fin,
    Site.anchors anchor_without_href "<a name='top'>Top</a>" = [None]
    ∧ Site.scrape anchor_without_href 2 "http://a.test/dir/page" 10 = Some (Returned fin)
    ∧ appended (log fin) = [ "http://a.test/dir/" ]
    ∧ fetched (log fin) = [ "http://a.test/dir/page"; "http://a.test/dir/" ].
Proof.
  eexists. split_and!; [reflexivity | by vm_compute.. ].
Qed.

(** ** The theorems at concrete inputs *)

Lemma third_is_404_head :
  at_loop_head UrlLib.urlsplit (Site.get third_is_404) (Site.anchors third_is_404)
    "http://a.test/" 10 third_is_404_at_p3.
Proof.
  apply (head_next _ _ _ _ _ third_is_404_at_p2 "http://a.test/p2"
           [ "http://a.test/p3"; "http://a.test/p4" ]); [| reflexivity | by vm_compute].
  apply (head_next _ _ _ _ _ (start "http://a.test/") "http://a.test/" []);
    [apply head_start | reflexivity | by vm_compute].
Defined.

Lemma two_pages_reached :
  reached UrlLib.urlsplit (Site.get two_pages) (Site.anchors two_pages)
    "http://a.test/" 10 two_pages_end.
Proof.
  apply (while_urls_reached _ _ _ "http://a.test/" 10 2 (start "http://a.test/"));
    [apply head_start | by vm_compute].
Defined.

(** C1 at the third page of [third_is_404]: the request for
    [http://a.test/p3] is answered with 404, the crawl returns with the
    e-mails of the first two pages, and [http://a.test/p4] stays on the deque. *)
Lemma C1_witness :
  urls third_is_404_at_p3 = [ "http://a.test/p3"; "http://a.test/p4" ]
  ∧ Site.get third_is_404 "http://a.test/p3" = Some (mkResponse 404 "three@a.test")
  ∧ ∃ fin,
      (∃ n, ∀ fuel, (n ≤ fuel)%nat →
         Site.scrape third_is_404 fuel "http://a.test/" 10 = Some (Returned fin))
      ∧ urls fin = [ "http://a.test/p4" ]
      ∧ fetched (log fin) = [ "http://a.test/"; "http://a.test/p2"; "http://a.test/p3" ]
      ∧ local_emails fin = {[ "one@a.test"; "two@a.test" ]}.
Proof.
  split; [reflexivity |]. split; [reflexivity |].
  destruct (C1_fail_fast_on_non_200 UrlLib.urlsplit (Site.get third_is_404)
              (Site.anchors third_is_404) "http://a.test/" 10 third_is_404_at_p3
              "http://a.test/p3" [ "http://a.test/p4" ]
              (mkSplit "http" "a.test" "/p3" "" "") (mkResponse 404 "three@a.test")
              third_is_404_head eq_refl eq_refl eq_refl eq_refl ltac:(discriminate))
    as (fin & Hrun & Hurls & _ & Hfetched & Hemails & _).
  exists fin. split; [exact Hrun |]. split; [exact Hurls |].
  split; [rewrite Hfetched; reflexivity | rewrite Hemails; reflexivity].
Defined.

(** C4 at the end of the crawl of [two_pages]. *)
Lemma C4_witness :
  reached UrlLib.urlsplit (Site.get two_pages) (Site.anchors two_pages)
    "http://a.test/" 10 two_pages_end
  ∧ NoDup (popped (log two_pages_end)) ∧ NoDup (fetched (log two_pages_end))
  ∧ NoDup ("http://a.test/" :: appended (log two_pages_end)).
Proof.
  split; [exact two_pages_reached |].
  destruct (C4_at_most_once UrlLib.urlsplit (Site.get two_pages) (Site.anchors two_pages)
              "http://a.test/" 10 two_pages_end two_pages_reached)
    as (Hpopped & Hfetched & _ & Happended & _).
  split; [exact Hpopped |]. split; [exact Hfetched | exact Happended].
Defined.

(** C7 at the end of the crawl of [two_pages], for [.pdf]. *)
Lemma C7_witness :
  reached UrlLib.urlsplit (Site.get two_pages) (Site.anchors two_pages)
    "http://a.test/" 10 two_pages_end
  ∧ ".pdf" ∈ [ ".pdf"; ".jpg"; ".jpeg"; ".png" ]
  ∧ Forall (λ link, PyStr.endswith ".pdf" link = false) (appended (log two_pages_end)).
Proof.
  split; [exact two_pages_reached |]. split; [apply (list_elem_of_here ".pdf") |].
  apply Forall_forall.
  apply (C7_exclusion_filter UrlLib.urlsplit (Site.get two_pages) (Site.anchors two_pages)
           "http://a.test/" 10 two_pages_end ".pdf" two_pages_reached).
  apply (list_elem_of_here ".pdf").
Defined.

(** C10 at the end of the crawl of [two_pages], for [.png]. *)
Lemma C10_witness :
  reached UrlLib.urlsplit (Site.get two_pages) (Site.anchors two_pages)
    "http://a.test/" 10 two_pages_end
  ∧ ".png" ∈ [ ".jpg"; ".jpeg"; ".pdf"; ".png" ]
  ∧ Forall (λ link, PyStr.contains ".png" link = false) (appended (log two_pages_end))
  ∧ visit_anchor "http://a.test" "http://a.test/" two_pages_end (Some "/img/.png/readme")
    = two_pages_end.
Proof.
  assert (".png" ∈ [ ".jpg"; ".jpeg"; ".pdf"; ".png" ]) as Hext.
  { do 3 apply list_elem_of_further. apply list_elem_of_here. }
  split; [exact two_pages_reached |]. split; [exact Hext |].
  destruct (C10_substring_exclusion UrlLib.urlsplit (Site.get two_pages)
              (Site.anchors two_pages) "http://a.test/" 10 two_pages_end ".png"
              two_pages_reached Hext) as (Happ & Hvisit & _).
  split; [by apply Forall_forall |]. by apply Hvisit.
Defined.

(** C5 on the page [http://a.test/x/about] with the link [contact.html],
    and on the seed [http://a.test] with the link [about]. *)
Lemma C5_witness :
  PyStr.startswith "/" "contact.html" = false
  ∧ PyStr.startswith "http" "contact.html" = false
  ∧ UrlLib.urlsplit "http://a.test/x/about" = Some (mkSplit "http" "a.test" "/x/about" "" "")
  ∧ resolve "http://a.test"
            (path_prefix (mkSplit "http" "a.test" "/x/about" "" "") "http://a.test/x/about")
            "contact.html" = "http://a.test/x/contact.html"
  ∧ resolve "http://a.test" (path_prefix (mkSplit "http" "a.test" "" "" "") "http://a.test")
            "about" = "http://a.test" +:+ "about".
Proof.
  split; [reflexivity |]. split; [reflexivity |]. split; [reflexivity |].
  split.
  - destruct (proj1 (C5_relative_resolution (mkSplit "http" "a.test" "/x/about" "" "")
                       "http://a.test/x/about" "contact.html" eq_refl eq_refl) eq_refl)
      as (dir & tail & _ & _ & _ & Hdir & Hlink).
    simpl in Hlink. rewrite Hlink, Hdir. reflexivity.
  - apply (proj2 (C5_relative_resolution (mkSplit "http" "a.test" "" "" "")
                    "http://a.test" "about" eq_refl eq_refl) eq_refl).
Defined.

(** C8 on [two_pages], from the empty table. *)
Lemma C8_witness :
  ∃ tbl1,
    process_domain UrlLib.urlsplit (Site.get two_pages) (Site.anchors two_pages)
      2 10 [] "http://a.test/" = Some (Saved tbl1)
    ∧ process_domain UrlLib.urlsplit (Site.get two_pages) (Site.anchors two_pages)
        5 10 tbl1 "http://a.test/" = Some (Saved tbl1)
    ∧ NoDup tbl1.
Proof.
  eexists. split; [by vm_compute |]. split; [by vm_compute |].
  refine (proj1 (proj2 (C8_dedup_idempotent UrlLib.urlsplit (Site.get two_pages)
            (Site.anchors two_pages) "http://a.test/" 10 2 5 [] _ _ (NoDup_nil_2 (A:=row)) _ _)));
    by vm_compute.
Defined.

(** C9 on [no_emails], from the empty table: the sentinel row is written. *)
Lemma C9_witness :
  ∃ fin tbl',
    Site.scrape no_emails 1 "http://b.test/" 10 = Some (Returned fin)
    ∧ local_emails fin = ∅
    ∧ process_domain UrlLib.urlsplit (Site.get no_emails) (Site.anchors no_emails)
        1 10 [] "http://b.test/" = Some (Saved tbl')
    ∧ sentinel "http://b.test/" ∈ tbl'.
Proof.
  assert (∃ fin, Site.scrape no_emails 1 "http://b.test/" 10 = Some (Returned fin)
                 ∧ local_emails fin = ∅) as (fin & Hrun & Hempty).
  { eexists. split; by vm_compute. }
  destruct (C9_empty_result_sentinel UrlLib.urlsplit (Site.get no_emails)
              (Site.anchors no_emails) "http://b.test/" 10 1 [] fin Hrun)
    as (tbl' & Hsaved & Hsentinel & _).
  exists fin, tbl'. split; [exact Hrun |]. split; [exact Hempty |].
  split; [exact Hsaved | exact (Hsentinel Hempty)].
Defined.

(** * Further properties *)

(** ** What the pattern returns *)

Section PatternFacts.
Import PyStr EmailRe.

Lemma span_spec (p : ascii → bool) (s run rest : string) :
  span p s = (run, rest) → s = run +:+ rest ∧ UrlLib.all_chars p run = true.
Proof.
  revert run rest. induction s as [|c s IH]; intros run rest; simpl.
  - by intros [= <- <-].
  - destruct (p c) eqn:Hc.
    + destruct (span p s) as [run' rest']. intros [= <- <-].
      destruct (IH _ _ eq_refl) as [-> Hall]. simpl. by rewrite Hc, Hall.
    + by intros [= <- <-].
Qed.

Lemma all_chars_app (p : ascii → bool) (s t : string) :
  UrlLib.all_chars p (s +:+ t) = UrlLib.all_chars p s && UrlLib.all_chars p t.
Proof.
  induction s as [|c s IH]; simpl; [done |]. by rewrite IH, andb_assoc.
Qed.

Lemma append_assoc (s t u : string) : (s +:+ t) +:+ u = s +:+ t +:+ u.
Proof. induction s as [|c s IH]; simpl; [done | by rewrite IH]. Qed.

Lemma last_tld_spec (d host tld : string) :
  last_tld d = Some (host, tld) →
  ∃ rest, d = host +:+ "." +:+ tld +:+ rest
          ∧ tld ≠ "" ∧ UrlLib.all_chars is_letter tld = true.
Proof.
  revert host tld. induction d as [|c d IH]; intros host tld; simpl; [done |].
  destruct (last_tld d) as [[host' tld']|].
  - intros [= <- <-]. destruct (IH _ _ eq_refl) as (rest & -> & Hne & Hall).
    by exists rest.
  - case_bool_decide as Hdot; [| done]. subst c.
    destruct (span is_letter d) as [[|l run] rest] eqn:Hspan; [done |].
    intros [= <- <-]. apply span_spec in Hspan as [-> Hall].
    exists rest. split_and!; [| done | done]. by simpl.
Qed.

(** A match is a prefix of the text it starts in, and has the pattern's form. *)
Lemma match_here_spec (s m : string) :
  match_here s = Some m →
  ∃ local host tld rest,
    s = m +:+ rest
    ∧ m = local +:+ "@" +:+ host +:+ "." +:+ tld
    ∧ local ≠ "" ∧ UrlLib.all_chars is_word local = true
    ∧ host ≠ "" ∧ UrlLib.all_chars is_word host = true
    ∧ tld ≠ "" ∧ UrlLib.all_chars is_letter tld = true.
Proof.
  unfold match_here.
  destruct (span is_word s) as [[|c local] [|a rest]] eqn:Hlocal; try done.
  case_bool_decide as Hat; [| done]. subst a.
  destruct (span is_word rest) as [[|d0 d] rest'] eqn:Hdom; [done |].
  destruct (last_tld d) as [[host tld]|] eqn:Htld; [| done].
  intros [= <-].
  apply span_spec in Hlocal as [-> Hlocal]. apply span_spec in Hdom as [-> Hdom].
  apply last_tld_spec in Htld as (rest'' & -> & Hne & Hall).
  exists (String c local), (String d0 host), tld, (rest'' +:+ rest').
  split_and!; try done.
  - simpl. f_equal. rewrite !append_assoc. simpl. by rewrite !append_assoc.
  - simpl in Hdom |- *. rewrite all_chars_app in Hdom.
    by destruct (is_word d0), (UrlLib.all_chars is_word host).
Qed.

Lemma scan_spec (s : string) (k : nat) (m : string) :
  m ∈ scan k s →
  contains m s = true
  ∧ ∃ local host tld,
      m = local +:+ "@" +:+ host +:+ "." +:+ tld
      ∧ local ≠ "" ∧ UrlLib.all_chars is_word local = true
      ∧ host ≠ "" ∧ UrlLib.all_chars is_word host = true
      ∧ tld ≠ "" ∧ UrlLib.all_chars is_letter tld = true.
Proof.
  revert k. induction s as [|a s IH]; intros k; [by intros ?%elem_of_nil |].
  assert (∀ k', m ∈ scan k' s →
    contains m (String a s) = true
    ∧ ∃ local host tld,
        m = local +:+ "@" +:+ host +:+ "." +:+ tld
        ∧ local ≠ "" ∧ UrlLib.all_chars is_word local = true
        ∧ host ≠ "" ∧ UrlLib.all_chars is_word host = true
        ∧ tld ≠ "" ∧ UrlLib.all_chars is_letter tld = true) as Hlater.
  { intros k' [Hc Hshape]%IH. split; [by apply contains_later | done]. }
  simpl scan. destruct k as [|k]; [| by apply Hlater].
  destruct (match_here (String a s)) as [m'|] eqn:Hm; [| by apply Hlater].
  intros [->|H]%elem_of_cons; [| by eapply Hlater].
  apply match_here_spec in Hm as (local & host & tld & rest & Hs & Hshape).
  split; [| by exists local, host, tld].
  rewrite Hs. apply contains_here, startswith_app.
Qed.


Lemma span_all (p : ascii → bool) (run rest : string) :
  UrlLib.all_chars p run = true →
  match rest with String c _ => p c = false | EmptyString => True end →
  span p (run +:+ rest) = (run, rest).
Proof.
  intros Hall Hrest. induction run as [|c run IH]; simpl in *.
  - destruct rest as [|c rest]; simpl; [done | by rewrite Hrest].
  - apply andb_true_iff in Hall as [-> Hall]. by rewrite (IH Hall).
Qed.

Lemma is_letter_word (c : ascii) : is_letter c = true → is_word c = true.
Proof. unfold is_word. by intros ->. Qed.

Lemma all_letters_words (s : string) :
  UrlLib.all_chars is_letter s = true → UrlLib.all_chars is_word s = true.
Proof.
  induction s as [|c s IH]; simpl; [done |].
  intros [Hc Hs]%andb_true_iff. by rewrite (is_letter_word c Hc), (IH Hs).
Qed.

Lemma last_tld_letters (s : string) :
  UrlLib.all_chars is_letter s = true → last_tld s = None.
Proof.
  induction s as [|c s IH]; simpl; [done |].
  intros [Hc Hs]%andb_true_iff. rewrite (IH Hs).
  case_bool_decide as Hdot; [| done]. by subst c.
Qed.

Lemma last_tld_app (host tld : string) :
  tld ≠ "" → UrlLib.all_chars is_letter tld = true →
  last_tld (host +:+ "." +:+ tld) = Some (host, tld).
Proof.
  intros Hne Hall. induction host as [|c host IH]; simpl.
  - rewrite (last_tld_letters tld Hall).
    pose proof (span_all is_letter tld "" Hall I) as Hspan.
    rewrite append_empty_r in Hspan. rewrite Hspan. by destruct tld.
  - simpl in IH. by rewrite IH.
Qed.

Lemma scan_skips (s : string) (k : nat) : (String.length s ≤ k)%nat → scan k s = [].
Proof.
  revert k. induction s as [|c s IH]; intros k Hk; simpl in *; [done |].
  destruct k as [|k]; [lia |]. apply IH. lia.
Qed.

Lemma scan_match (c : ascii) (s m : string) :
  match_here (String c s) = Some m →
  scan 0 (String c s) = m :: scan (String.length m - 1) s.
Proof.
  intros H.
  change (scan 0 (String c s))
    with (match match_here (String c s) with
          | Some m => m :: scan (String.length m - 1) s
          | None => scan 0 s
          end).
  by rewrite H.
Qed.

(** X17. The pattern finds an address that stands alone: on a text that
    is a non-empty run of letters, digits and [.-+_], then [@], then another
    such run, a dot and a non-empty run of letters, and nothing else, it
    returns that text and only it. *)
Theorem X17_findall_address (local host tld : string) :
  local ≠ "" → UrlLib.all_chars is_word local = true →
  host ≠ "" → UrlLib.all_chars is_word host = true →
  tld ≠ "" → UrlLib.all_chars is_letter tld = true →
  findall (local +:+ "@" +:+ host +:+ "." +:+ tld)
  = [ local +:+ "@" +:+ host +:+ "." +:+ tld ].
Proof.
  intros Hlocal Hlw Hhost Hhw Htld Htl.
  destruct local as [|c local]; [done |]. destruct host as [|d0 host]; [done |].
  assert (match_here (String c local +:+ "@" +:+ String d0 host +:+ "." +:+ tld)
          = Some (String c local +:+ "@" +:+ String d0 host +:+ "." +:+ tld)) as Hmatch.
  { unfold match_here.
    rewrite (span_all is_word (String c local) ("@" +:+ String d0 host +:+ "." +:+ tld))
      by done.
    change ("@" +:+ String d0 host +:+ "." +:+ tld)
      with (String "@" (String d0 host +:+ "." +:+ tld)).
    cbv beta iota. rewrite bool_decide_eq_true_2 by done.
    pose proof (span_all is_word (String d0 host +:+ "." +:+ tld) "") as Hspan.
    rewrite append_empty_r in Hspan. rewrite Hspan; [| | done].
    - change (String d0 host +:+ "." +:+ tld) with (String d0 (host +:+ "." +:+ tld)).
      cbv beta iota. by rewrite last_tld_app.
    - rewrite all_chars_app, Hhw. simpl. by apply all_letters_words. }
  unfold findall.
  change (String c local +:+ "@" +:+ String d0 host +:+ "." +:+ tld)
    with (String c (local +:+ "@" +:+ String d0 host +:+ "." +:+ tld)) in *.
  rewrite (scan_match _ _ _ Hmatch). f_equal. apply scan_skips. simpl. lia.
Qed.

End PatternFacts.

(** ** What a pass adds to the log *)

Section PassFacts.
Variable urlsplit : string → option SplitResult.
Variable requests_get : string → option Response.
Variable find_all_a : string → list (option string).

#[local] Abbreviation iteration := (iteration urlsplit requests_get find_all_a).
#[local] Abbreviation while_urls := (while_urls urlsplit requests_get find_all_a).
#[local] Abbreviation scrape_domain := (scrape_domain urlsplit requests_get find_all_a).
#[local] Abbreviation scan_page := (scan_page find_all_a).
#[local] Abbreviation at_loop_head := (at_loop_head urlsplit requests_get find_all_a).
#[local] Abbreviation reached := (reached urlsplit requests_get find_all_a).
#[local] Abbreviation invariant := (invariant requests_get).
#[local] Abbreviation skipped := (skipped urlsplit requests_get).

Lemma anchors_log (base_url path : string) (anchors : list (option string)) (st : crawl) :
  ∃ links, log (foldl (visit_anchor base_url path) st anchors) = log st ++ (Append <$> links).
Proof.
  revert st. induction anchors as [|a anchors IH]; intros st; simpl.
  - exists []. by rewrite app_nil_r.
  - destruct (IH (visit_anchor base_url path st a)) as [links ->].
    unfold visit_anchor. destruct (enqueueable _ _); [| by exists links].
    eexists (_ :: links). simpl. by rewrite <- app_assoc.
Qed.

Lemma popped_appends (l : list event) (links : list string) :
  popped (l ++ (Append <$> links)) = popped l.
Proof.
  unfold popped. rewrite omap_app.
  induction links as [|x links IH]; simpl in *; [by rewrite app_nil_r | done].
Qed.

Lemma fetched_appends (l : list event) (links : list string) :
  fetched (l ++ (Append <$> links)) = fetched l.
Proof.
  unfold fetched. rewrite omap_app.
  induction links as [|x links IH]; simpl in *; [by rewrite app_nil_r | done].
Qed.

Lemma scan_page_log (parts : SplitResult) (url : string) (response : Response) (st : crawl) :
  ∃ links, log (scan_page parts url response st) = log st ++ (Append <$> links).
Proof.
  unfold scan_page.
  destruct (anchors_log (scheme parts +:+ "://" +:+ netloc parts) (path_prefix parts url)
              (find_all_a (text response)) (emails_update (text response) st))
    as [links Hlog].
  by exists links.
Qed.

(** What a pass that ends normally does to the log: the URL is taken off,
    it is requested when it is valid, and links may be appended. *)
Lemma pass_effect (max_urls : Z) (url : string) (st st' : crawl) :
  flow_state (iteration max_urls url st) = Some st' →
  ∃ parts l,
    urlsplit url = Some parts
    ∧ log st' = log st ++ Popleft url :: l
    ∧ popped (log st') = popped (log st) ++ [url]
    ∧ fetched (log st') = fetched (log st) ++ (if is_valid_url parts then [url] else []).
Proof.
  intros Hflow. pose proof (iteration_cases urlsplit requests_get find_all_a max_urls url st) as H.
  destruct (urlsplit url) as [parts|]; [| by rewrite H in Hflow].
  exists parts. destruct (is_valid_url parts).
  - destruct (requests_get url) as [response|].
    + assert (st' = requested url (scraped_add url st)
              ∨ st' = scan_page parts url response (requested url (scraped_add url st)))
        as [->| ->].
      { destruct (status_code response =? 200)%Z; cbv zeta in H.
        - destruct (max_urls <=? _)%Z; rewrite H in Hflow; simplify_eq/=; by right.
        - rewrite H in Hflow. simplify_eq/=. by left. }
      * exists [Get url]. simpl.
        rewrite !popped_snoc, !fetched_snoc, !app_nil_r, <- !app_assoc. done.
      * destruct (scan_page_log parts url response (requested url (scraped_add url st)))
          as [links Hlog].
        exists (Get url :: (Append <$> links)). rewrite Hlog.
        rewrite popped_appends, fetched_appends. simpl.
        rewrite !popped_snoc, !fetched_snoc, !app_nil_r, <- !app_assoc. done.
    + rewrite H in Hflow. simplify_eq/=. exists [Get url].
      rewrite !popped_snoc, !fetched_snoc, !app_nil_r, <- !app_assoc. done.
  - rewrite H in Hflow. simplify_eq/=. exists [].
    rewrite !popped_snoc, !fetched_snoc, !app_nil_r. done.
Qed.

(** Induction over the states of a crawl. *)
Lemma reached_induction (domain : string) (max_urls : Z) (P : crawl → Prop) :
  P (start domain) →
  (∀ st url rest st',
     at_loop_head domain max_urls st → P st → urls st = url :: rest →
     flow_state (iteration max_urls url (popleft rest st)) = Some st' → P st') →
  ∀ st, reached domain max_urls st → P st.
Proof.
  intros Hstart Hpass.
  assert (∀ st, at_loop_head domain max_urls st → P st) as Hhead.
  { induction 1 as [|st url rest st' Hst IH Hurls Hiter]; [done |].
    eapply Hpass; [done.. |]. by rewrite Hiter. }
  intros st [st' H|st0 url rest st' H Hurls Hiter]; [by apply Hhead |].
  eapply Hpass; [done | by apply Hhead | done |]. by rewrite Hiter.
Qed.

(** Where [scrape_domain] returns from: the loop test with an empty deque,
    or a [break]. *)
Lemma while_urls_final (domain : string) (max_urls : Z) (fuel : nat) (st fin : crawl) :
  at_loop_head domain max_urls st →
  while_urls fuel max_urls st = Some (Returned fin) →
  (at_loop_head domain max_urls fin ∧ urls fin = [])
  ∨ (∃ st0 url rest,
       at_loop_head domain max_urls st0 ∧ urls st0 = url :: rest
       ∧ iteration max_urls url (popleft rest st0) = Break fin).
Proof.
  revert st. induction fuel as [|fuel IH]; intros st Hhead; simpl.
  - destruct (urls st) eqn:Hurls; [| done]. intros [= <-]. by left.
  - destruct (urls st) as [|url rest] eqn:Hurls; [intros [= <-]; by left |].
    destruct (iteration _ _ _) as [st'|st'|] eqn:Hiter; [| | done].
    + apply IH. by eapply head_next.
    + intros [= <-]. right. by exists st, url, rest.
Qed.

End PassFacts.

(** ** More about one crawl *)

Section CrawlMore.
Variable urlsplit : string → option SplitResult.
Variable requests_get : string → option Response.
Variable find_all_a : string → list (option string).

#[local] Abbreviation iteration := (iteration urlsplit requests_get find_all_a).
#[local] Abbreviation while_urls := (while_urls urlsplit requests_get find_all_a).
#[local] Abbreviation scrape_domain := (scrape_domain urlsplit requests_get find_all_a).
#[local] Abbreviation scan_page := (scan_page find_all_a).
#[local] Abbreviation at_loop_head := (at_loop_head urlsplit requests_get find_all_a).
#[local] Abbreviation reached := (reached urlsplit requests_get find_all_a).
#[local] Abbreviation invariant := (invariant requests_get).
#[local] Abbreviation skipped := (skipped urlsplit requests_get).
#[local] Abbreviation process_domain := (process_domain urlsplit requests_get find_all_a).

(** X2. [scrape_domain] ends on every site, finite or not, for every seed
    and every limit: from some number of passes on, the bounded loop gives one
    and the same result. *)
Theorem X2_scrape_domain_ends (domain : string) (max_urls : Z) :
  ∃ n r, ∀ fuel, (n ≤ fuel)%nat → scrape_domain fuel domain max_urls = Some r.
Proof.
  destruct (scrape_domain_terminates urlsplit requests_get find_all_a domain max_urls)
    as (n & r & Hrun).
  exists n, r. intros fuel Hle. replace fuel with (n + (fuel - n)) by lia.
  by apply while_urls_more.
Qed.

(** X3. Breadth-first order: at every loop test and after a [break], the
    URLs taken off the deque so far, followed by the deque, are the seed
    followed by the links in the order they were appended.  So URLs are
    requested in the order of their discovery, the seed first. *)
Theorem X3_fifo_order (domain : string) (max_urls : Z) (st : crawl) :
  reached domain max_urls st →
  popped (log st) ++ urls st = domain :: appended (log st)
  ∧ popped (log st) `prefix_of` domain :: appended (log st)
  ∧ fetched (log st) `sublist_of` domain :: appended (log st).
Proof.
  intros [Hfifo _ _ _ _ Hfetched]%reached_invariant. split_and!; [done | |].
  - rewrite Hfifo. by apply prefix_app_r.
  - rewrite Hfifo. by apply sublist_inserts_r.
Qed.

Lemma reached_fetched_valid (domain : string) (max_urls : Z) (st : crawl) :
  reached domain max_urls st →
  Forall (λ url, ∃ parts, urlsplit url = Some parts ∧ is_valid_url parts = true)
         (fetched (log st)).
Proof.
  revert st.
  apply (reached_induction urlsplit requests_get find_all_a domain max_urls
           (λ st, Forall (λ url, ∃ parts, urlsplit url = Some parts
                                          ∧ is_valid_url parts = true)
                         (fetched (log st)))); [constructor |].
  intros st0 url rest st' _ IH _ Hflow.
  apply pass_effect in Hflow as (parts & l & Hsplit & _ & _ & Hfetched).
  rewrite Hfetched. simpl. apply Forall_app. split; [done |].
  destruct (is_valid_url parts) eqn:Hvalid; [| constructor].
  repeat constructor. by exists parts.
Qed.

(** X4. Only valid URLs are requested: at every loop test and after a
    [break], every URL that was passed to [requests.get] splits into a scheme
    [http] or [https] and a network location that is not empty, and had been
    taken off the deque. *)
Theorem X4_only_valid_requested (domain : string) (max_urls : Z) (st : crawl)
    (url : string) :
  reached domain max_urls st →
  url ∈ fetched (log st) →
  url ∈ popped (log st)
  ∧ ∃ parts,
      urlsplit url = Some parts
      ∧ (scheme parts = "http" ∨ scheme parts = "https")
      ∧ netloc parts ≠ "".
Proof.
  intros Hreached Hin. split.
  - apply reached_invariant in Hreached as [_ _ _ _ _ Hsub].
    by eapply elem_of_sublist.
  - pose proof (reached_fetched_valid _ _ _ Hreached) as Hall.
    apply (proj1 (Forall_forall _ _) Hall) in Hin as (parts & Hsplit & Hvalid).
    exists parts. unfold is_valid_url in Hvalid.
    apply andb_true_iff in Hvalid as [Hscheme Hnetloc].
    apply orb_true_iff in Hscheme. rewrite !bool_decide_eq_true in Hscheme.
    apply negb_true_iff, bool_decide_eq_false in Hnetloc. done.
Qed.

(** The URLs of a list that were answered, with 200 or not. *)
Lemma filter_split (f : string → bool) (l : list string) :
  length l
  = (length (List.filter f l) + length (List.filter (λ x, negb (f x)) l))%nat.
Proof.
  induction l as [|x l IH]; simpl; [done |]. destruct (f x); simpl; lia.
Qed.

Lemma filter_snoc (f : string → bool) (l : list string) (x : string) :
  List.filter f (l ++ [x]) = List.filter f l ++ (if f x then [x] else []).
Proof. by rewrite List.filter_app. Qed.

(** How a pass counts: it is skipped and goes on, or it is answered and
    either breaks or goes on below the limit. *)
Lemma pass_kinds (max_urls : Z) (url : string) (st : crawl) :
  match iteration max_urls url st with
  | Continue st' =>
      skipped url = true ∨ (Z.of_nat (size (local_scraped_urls st')) < max_urls)%Z
  | Break st' => skipped url = false
  | Raise => True
  end.
Proof.
  pose proof (iteration_cases urlsplit requests_get find_all_a max_urls url st) as H.
  unfold skipped. destruct (urlsplit url) as [parts|]; [| by rewrite H].
  destruct (is_valid_url parts); [| rewrite H; by left].
  destruct (requests_get url) as [response|]; [| rewrite H; by left].
  destruct (status_code response =? 200)%Z; [| by rewrite H].
  cbv zeta in H. destruct (max_urls <=? _)%Z eqn:Hmax; rewrite H; [done |].
  right. by apply Z.leb_gt.
Qed.

Lemma at_loop_head_answered (domain : string) (max_urls : Z) (st : crawl) :
  at_loop_head domain max_urls st →
  let answered := length (List.filter (λ url, negb (skipped url)) (popped (log st))) in
  answered = 0%nat ∨ (Z.of_nat answered < max_urls)%Z.
Proof.
  induction 1 as [|st url rest st' Hhead IH Hurls Hiter]; [by left |].
  assert (flow_state (iteration max_urls url (popleft rest st)) = Some st') as Hflow
    by by rewrite Hiter.
  pose proof (invariant_iteration _ _ _ _ _ _ _ _ _
                (at_loop_head_invariant _ _ _ _ _ _ Hhead) Hurls Hflow) as Hinv.
  apply invariant_size in Hinv.
  apply pass_effect in Hflow as (parts & l & _ & _ & Hpopped & _).
  pose proof (pass_kinds max_urls url (popleft rest st)) as Hkind.
  rewrite Hiter in Hkind. simpl in *. rewrite Hpopped, filter_snoc in *.
  destruct Hkind as [Hskip|Hless].
  - rewrite Hskip. simpl. by rewrite app_nil_r.
  - right. rewrite Hinv in Hless.
    pose proof (filter_split (λ url, negb (skipped url)) (popped (log st) ++ [url])) as Hsplit.
    rewrite filter_snoc in Hsplit. lia.
Qed.

(** X5. What the limit does bound: at every loop test and after a
    [break], the scraped set has at most [max_urls] elements (one when
    [max_urls] is below one), plus one for every URL whose pass was skipped
    because the URL was not valid or its request raised. *)
Theorem X5_limit_up_to_skips (domain : string) (max_urls : Z) (st : crawl) :
  reached domain max_urls st →
  (Z.of_nat (size (local_scraped_urls st))
   ≤ Z.max 1 max_urls + Z.of_nat (length (List.filter skipped (popped (log st)))))%Z.
Proof.
  intros Hreached.
  rewrite (invariant_size _ _ _ (reached_invariant _ _ _ _ _ _ Hreached)).
  rewrite (filter_split skipped (popped (log st))).
  destruct Hreached as [st Hhead|st url rest st' Hhead Hurls Hiter].
  - pose proof (at_loop_head_answered _ _ _ Hhead) as H. simpl in H. lia.
  - pose proof (at_loop_head_answered _ _ _ Hhead) as H. simpl in H.
    assert (flow_state (iteration max_urls url (popleft rest st)) = Some st') as Hflow
      by by rewrite Hiter.
    apply pass_effect in Hflow as (parts & l & _ & _ & Hpopped & _).
    simpl in Hpopped. rewrite Hpopped, !filter_snoc, !List.length_app.
    destruct (skipped url); simpl; lia.
Qed.

(** X6. A limit below two: with [max_urls ≤ 1], zero and negative limits
    included, [scrape_domain] ends after one pass, and when it returns the
    seed is the only URL taken off the deque. *)
Theorem X6_limit_below_two (domain : string) (max_urls : Z) :
  (max_urls ≤ 1)%Z →
  ∃ r,
    (∀ fuel, (1 ≤ fuel)%nat → scrape_domain fuel domain max_urls = Some r)
    ∧ (∀ st, r = Returned st →
         popped (log st) = [domain] ∧ local_scraped_urls st = {[ domain ]}).
Proof.
  intros Hle.
  assert (∃ r, scrape_domain 1 domain max_urls = Some r
               ∧ ∀ st, r = Returned st → popped (log st) = [domain]) as (r & Hrun & Hpop).
  { unfold scrape_domain. simpl.
    destruct (iteration max_urls domain (popleft [] (start domain))) as [st'|st'|] eqn:Hiter.
    - assert (flow_state (iteration max_urls domain (popleft [] (start domain))) = Some st')
        as Hflow by by rewrite Hiter.
      pose proof (iteration_scraped _ _ _ _ _ _ _ Hflow) as Hscraped.
      pose proof (iteration_continue _ _ _ _ _ _ _ Hiter) as [Hsame|Hless].
      + simpl in Hsame. rewrite Hsame. eexists. split; [done |]. intros st [= <-].
        by apply pass_effect in Hflow as (_ & _ & _ & _ & -> & _).
      + assert (local_scraped_urls st' = {[ domain ]}) as Hone.
        { rewrite Hscraped. apply (right_id_L ∅ (∪)). }
        rewrite Hone, size_singleton in Hless. lia.
    - eexists. split; [done |]. intros st [= <-].
      assert (flow_state (iteration max_urls domain (popleft [] (start domain))) = Some st')
        as Hflow by by rewrite Hiter.
      by apply pass_effect in Hflow as (_ & _ & _ & _ & -> & _).
    - eexists. split; [done |]. by intros st [=]. }
  exists r. split.
  - intros fuel Hfuel. replace fuel with (1 + (fuel - 1)) by lia.
    by apply while_urls_more.
  - intros st ->. split; [by apply Hpop |].
    eapply while_urls_reached in Hrun; [| apply head_start].
    apply reached_invariant in Hrun as [_ _ Hscraped _ _ _].
    rewrite Hscraped, (Hpop st eq_refl). simpl. by rewrite (right_id_L ∅ (∪)).
Qed.

(** X7. A seed that fails is recorded like a site without addresses: when
    the seed is not a valid URL, or its request raises, or it is answered
    with a status other than 200, the crawl returns no e-mail after one pass
    and the domain gets the row with the text [0]. *)
Theorem X7_failed_seed_recorded_as_empty (domain : string) (max_urls : Z)
    (tbl : list row) (parts : SplitResult) :
  urlsplit domain = Some parts →
  (is_valid_url parts = false
   ∨ requests_get domain = None
   ∨ ∃ response, requests_get domain = Some response ∧ status_code response ≠ 200%Z) →
  ∃ fin,
    (∀ fuel, (1 ≤ fuel)%nat → scrape_domain fuel domain max_urls = Some (Returned fin))
    ∧ local_emails fin = ∅
    ∧ (∀ fuel, (1 ≤ fuel)%nat →
         process_domain fuel max_urls tbl domain
         = Some (Saved (insert_or_ignore domain tbl (PInt 0))))
    ∧ sentinel domain ∈ insert_or_ignore domain tbl (PInt 0).
Proof.
  intros Hsplit Hfail.
  assert (∃ fin, scrape_domain 1 domain max_urls = Some (Returned fin)
                 ∧ local_emails fin = ∅) as (fin & Hrun & Hempty).
  { unfold scrape_domain. simpl.
    pose proof (iteration_cases urlsplit requests_get find_all_a max_urls domain
                  (popleft [] (start domain))) as H.
    rewrite Hsplit in H. destruct (is_valid_url parts) eqn:Hvalid.
    - destruct Hfail as [?|[Hget|(response & Hget & Hstatus)]]; [done | |].
      + rewrite Hget in H. rewrite H. simpl. by eexists.
      + rewrite Hget in H. apply Z.eqb_neq in Hstatus. rewrite Hstatus in H.
        rewrite H. by eexists.
    - rewrite H. simpl. by eexists. }
  assert (∀ fuel, (1 ≤ fuel)%nat → scrape_domain fuel domain max_urls = Some (Returned fin))
    as Hall.
  { intros fuel Hfuel. replace fuel with (1 + (fuel - 1)) by lia.
    by apply while_urls_more. }
  exists fin. split_and!; [done | done | |].
  - intros fuel Hfuel. unfold process_domain. fold scrape_domain.
    rewrite (Hall fuel Hfuel), Hempty. unfold store_found.
    by rewrite bool_decide_eq_true_2.
  - apply insert_or_ignore_elem. by right.
Qed.

(** X8. Where the e-mails come from: every address that [scrape_domain]
    returns was matched on, and occurs in, the text of a response with status
    200 to a request that the crawl made. *)
Theorem X8_emails_come_from_pages (domain : string) (max_urls : Z) (fuel : nat)
    (fin : crawl) (email : string) :
  scrape_domain fuel domain max_urls = Some (Returned fin) →
  email ∈ local_emails fin →
  ∃ url response,
    url ∈ fetched (log fin)
    ∧ requests_get url = Some response
    ∧ status_code response = 200%Z
    ∧ email ∈ EmailRe.findall (text response)
    ∧ PyStr.contains email (text response) = true.
Proof.
  intros Hrun Hin.
  eapply while_urls_reached in Hrun; [| apply head_start].
  apply reached_invariant in Hrun as [_ _ _ _ Hemails _].
  rewrite Hemails in Hin. unfold emails_from in Hin.
  apply elem_of_union_list in Hin as (X & (url & -> & Hurl)%list_elem_of_fmap & Hin).
  unfold page_emails in Hin. destruct (requests_get url) as [response|] eqn:Hget.
  - destruct (status_code response =? 200)%Z eqn:Hstatus.
    + apply elem_of_list_to_set in Hin. exists url, response.
      split_and!; [done | done | by apply Z.eqb_eq | done |].
      by apply scan_spec in Hin as [? _].
    + by apply not_elem_of_empty in Hin.
  - by apply not_elem_of_empty in Hin.
Qed.

(** A crawl whose seed is valid requests the seed first. *)
Lemma valid_seed_requested (domain : string) (max_urls : Z) (fuel : nat) (fin : crawl)
    (parts : SplitResult) :
  urlsplit domain = Some parts → is_valid_url parts = true →
  scrape_domain fuel domain max_urls = Some (Returned fin) →
  ∃ rest, fetched (log fin) = domain :: rest.
Proof.
  intros Hsplit Hvalid Hrun.
  assert (∀ st, reached domain max_urls st →
            log st = [] ∨ ∃ rest, fetched (log st) = domain :: rest) as Hshape.
  { apply (reached_induction urlsplit requests_get find_all_a domain max_urls
             (λ st, log st = [] ∨ ∃ rest, fetched (log st) = domain :: rest));
      [by left |].
    intros st url rest st' Hhead IH Hurls Hflow. right.
    apply pass_effect in Hflow as (parts' & l & Hsplit' & _ & _ & Hfetched).
    simpl in Hfetched. rewrite Hfetched. destruct IH as [Hnil|[rest' ->]]; [| by eexists].
    apply at_loop_head_invariant in Hhead as [Hfifo _ _ _ _ _].
    rewrite Hnil, Hurls in Hfifo. simpl in Hfifo. injection Hfifo as <- _.
    rewrite Hsplit in Hsplit'. injection Hsplit' as <-. rewrite Hnil, Hvalid. by eexists. }
  pose proof Hrun as Hfinal.
  eapply while_urls_reached in Hrun; [| apply head_start].
  destruct (Hshape fin Hrun) as [Hnil|?]; [| done]. exfalso.
  destruct (while_urls_final urlsplit requests_get find_all_a domain max_urls fuel
              (start domain) fin (head_start _ _ _ _ _) Hfinal)
    as [[Hhead Hurls]|(st0 & url & rest & _ & _ & Hiter)].
  - apply at_loop_head_invariant in Hhead as [Hfifo _ _ _ _ _].
    by rewrite Hnil, Hurls in Hfifo.
  - assert (flow_state (iteration max_urls url (popleft rest st0)) = Some fin) as Hflow
      by by rewrite Hiter.
    apply pass_effect in Hflow as (_ & l & _ & Hlog & _).
    rewrite Hnil in Hlog. by destruct (log (popleft rest st0)).
Qed.

End CrawlMore.

(** ** The list of domains *)

Section StripFacts.
Import PyStr.

Lemma lstrip_head (s : string) :
  match lstrip s with
  | String c _ => isspace c = false
  | EmptyString => True
  end.
Proof.
  unfold lstrip. induction s as [|c s IH]; simpl; [done |].
  destruct (isspace c) eqn:Hc; [| done]. by destruct (span isspace s).
Qed.

Lemma lstrip_fixed (s : string) :
  match s with String c _ => isspace c = false | EmptyString => True end →
  lstrip s = s.
Proof. unfold lstrip. destruct s as [|c s]; simpl; [done |]. by intros ->. Qed.

Lemma rstrip_head (c : ascii) (s : string) :
  isspace c = false → ∃ r, rstrip (String c s) = String c r.
Proof. intros Hc. simpl. rewrite Hc. destruct (rstrip s); by eexists. Qed.

Lemma rstrip_rstrip (s : string) : rstrip (rstrip s) = rstrip s.
Proof.
  induction s as [|c s IH]; simpl; [done |].
  destruct (rstrip s) as [|d r] eqn:Hr.
  - destruct (isspace c) eqn:Hc; simpl; [done | by rewrite Hc].
  - simpl in IH |- *. by rewrite IH.
Qed.

(** What [strip] returns is stripped. *)
Lemma strip_strip (s : string) : strip (strip s) = strip s.
Proof.
  unfold strip. pose proof (lstrip_head s) as Hhead.
  destruct (lstrip s) as [|c t]; [done |].
  destruct (rstrip_head c t Hhead) as [r Hr]. rewrite Hr.
  rewrite lstrip_fixed by done. rewrite <- Hr. apply rstrip_rstrip.
Qed.

End StripFacts.

Section LoadFacts.
Variable urlsplit : string → option SplitResult.

#[local] Abbreviation valid_lines := (valid_lines urlsplit).
#[local] Abbreviation load_domains_from_file := (load_domains_from_file urlsplit).

Lemma valid_lines_raises (lines : list string) :
  valid_lines lines = None ↔ ∃ line, line ∈ lines ∧ urlsplit (PyStr.strip line) = None.
Proof.
  induction lines as [|line lines IH]; simpl.
  - split; [done | by intros (? & ?%elem_of_nil & _)].
  - destruct (urlsplit (PyStr.strip line)) as [parts|] eqn:Hsplit.
    + destruct (valid_lines lines) as [domains|].
      * split; [done |]. intros (l & [->|Hin]%elem_of_cons & Hl); [congruence |].
        assert (Some domains = None) as H; [| done]. apply IH. by exists l.
      * split; [| done]. intros _. destruct (proj1 IH eq_refl) as (l & Hin & Hl).
        exists l. split; [by right | done].
    + split; [| done]. intros _. exists line. split; [by left | done].
Qed.

Lemma valid_lines_spec (lines domains : list string) :
  valid_lines lines = Some domains →
  domains `sublist_of` (PyStr.strip <$> lines)
  ∧ ∀ d, d ∈ domains ↔
         ∃ line parts, line ∈ lines ∧ d = PyStr.strip line
                       ∧ urlsplit d = Some parts ∧ is_valid_url parts = true.
Proof.
  revert domains. induction lines as [|line lines IH]; intros domains; simpl.
  - intros [= <-]. split; [done |]. intros d. split; [by intros ?%elem_of_nil |].
    by intros (? & ? & ?%elem_of_nil & _).
  - destruct (urlsplit (PyStr.strip line)) as [parts|] eqn:Hsplit; [| done].
    destruct (valid_lines lines) as [domains'|]; [| done].
    destruct (IH _ eq_refl) as [Hsub Hmem]. intros [= <-].
    destruct (is_valid_url parts) eqn:Hvalid.
    + split; [by constructor |]. intros d. rewrite elem_of_cons, Hmem. split.
      * intros [->|(l & p & Hin & Hd)]; [exists line, parts | exists l, p].
        -- split_and!; [by left | done..].
        -- destruct Hd as (? & ? & ?). split_and!; [by right | done..].
      * intros (l & p & [->|Hin]%elem_of_cons & Hd & Hl); [by left |].
        right. by exists l, p.
    + split; [by constructor |]. intros d. rewrite Hmem. split.
      * intros (l & p & Hin & Hd). exists l, p. destruct Hd as (? & ? & ?).
        split_and!; [by right | done..].
      * intros (l & p & [->|Hin]%elem_of_cons & -> & Hl & Hv); [congruence |].
        by exists l, p.
Qed.

(** X9. What [load_domains_from_file] returns: stripped lines of the
    file in the order of the file, without surrounding white space, each of
    them a valid URL; and when no line makes the URL parser raise, every line
    that is a valid URL once stripped is returned. *)
Theorem X9_loaded_domains (lines : list string) :
  load_domains_from_file (Some lines) `sublist_of` (PyStr.strip <$> lines)
  ∧ (∀ d, d ∈ load_domains_from_file (Some lines) →
       PyStr.strip d = d
       ∧ ∃ line parts, line ∈ lines ∧ d = PyStr.strip line
                       ∧ urlsplit d = Some parts ∧ is_valid_url parts = true)
  ∧ ((∀ line, line ∈ lines → urlsplit (PyStr.strip line) ≠ None) →
     ∀ line parts, line ∈ lines → urlsplit (PyStr.strip line) = Some parts →
                   is_valid_url parts = true →
                   PyStr.strip line ∈ load_domains_from_file (Some lines)).
Proof.
  unfold load_domains_from_file.
  destruct (valid_lines lines) as [domains|] eqn:Hlines; simpl.
  - destruct (valid_lines_spec _ _ Hlines) as [Hsub Hmem]. split_and!; [done | |].
    + intros d Hd. apply Hmem in Hd as (line & parts & Hin & -> & Hsplit & Hvalid).
      split; [apply strip_strip | by exists line, parts].
    + intros _ line parts Hin Hsplit Hvalid. apply Hmem. by exists line, parts.
  - split_and!; [apply sublist_nil_l | by intros d ?%elem_of_nil |].
    intros Hall. apply valid_lines_raises in Hlines as (line & Hin & Hnone).
    by destruct (Hall line Hin).
Qed.

(** X10. Errors of [load_domains_from_file]: a file that cannot be opened
    or read gives the empty list, and so does a file with a single line on
    which the URL parser raises, whatever the other lines are. *)
Theorem X10_load_errors_give_nothing :
  load_domains_from_file None = []
  ∧ ∀ lines line,
      line ∈ lines → urlsplit (PyStr.strip line) = None →
      load_domains_from_file (Some lines) = [].
Proof.
  split; [done |]. intros lines line Hin Hnone. unfold load_domains_from_file.
  assert (valid_lines lines = None) as ->; [| done].
  apply valid_lines_raises. by exists line.
Qed.

(** X11. Loading and crawling compose: a domain that
    [load_domains_from_file] returned is never skipped as invalid by its own
    crawl; when the crawl returns, its first request was for the domain. *)
Theorem X11_loaded_domain_is_requested (requests_get : string → option Response)
    (find_all_a : string → list (option string)) (file : option (list string))
    (domain : string) (max_urls : Z) (fuel : nat) (fin : crawl) :
  domain ∈ load_domains_from_file file →
  scrape_domain urlsplit requests_get find_all_a fuel domain max_urls = Some (Returned fin) →
  ∃ rest, fetched (log fin) = domain :: rest.
Proof.
  intros Hin Hrun. destruct file as [lines|]; [| by apply elem_of_nil in Hin].
  unfold load_domains_from_file in Hin.
  destruct (valid_lines lines) as [domains|] eqn:Hlines; simpl in Hin;
    [| by apply elem_of_nil in Hin].
  apply (valid_lines_spec _ _ Hlines) in Hin as (line & parts & _ & _ & Hsplit & Hvalid).
  by eapply valid_seed_requested.
Qed.

End LoadFacts.

(** ** More about the stored rows *)

Section StoreMore.

Lemma insert_or_ignore_grows (domain : string) (tbl : list row) (email : sql_param) :
  ∃ new, insert_or_ignore domain tbl email = tbl ++ new
         ∧ NoDup new
         ∧ ∀ r, r ∈ new ↔ (r ∉ tbl) ∧ r = (domain, as_text email).
Proof.
  unfold insert_or_ignore. case_bool_decide as Hin.
  - exists []. rewrite app_nil_r. split_and!; [done | constructor |].
    intros r. split; [by intros ?%elem_of_nil | by intros [? ->]].
  - exists [(domain, as_text email)]. split_and!; [done | apply NoDup_singleton |].
    intros r. rewrite list_elem_of_singleton. split; [by intros -> | by intros [_ ->]].
Qed.

Lemma save_to_db_grows (tbl : list row) (domain : string) (emails : list sql_param) :
  ∃ new,
    save_to_db tbl domain emails = tbl ++ new
    ∧ NoDup new
    ∧ ∀ r, r ∈ new ↔ (r ∉ tbl) ∧ ∃ email, email ∈ emails ∧ r = (domain, as_text email).
Proof.
  unfold save_to_db. revert tbl.
  induction emails as [|e emails IH]; intros tbl; simpl.
  - exists []. rewrite app_nil_r. split_and!; [done | constructor |].
    intros r. split; [by intros ?%elem_of_nil |].
    by intros (_ & ? & ?%elem_of_nil & _).
  - destruct (insert_or_ignore_grows domain tbl e) as (new1 & -> & Hnd1 & Hnew1).
    destruct (IH (tbl ++ new1)) as (new2 & -> & Hnd2 & Hnew2).
    exists (new1 ++ new2). rewrite <- app_assoc. split_and!; [done | |].
    + apply NoDup_app. split_and!; [done | | done].
      intros r Hr1 Hr2. apply Hnew2 in Hr2 as [Hnot _]. apply Hnot, elem_of_app. by right.
    + intros r. rewrite elem_of_app, Hnew1, Hnew2, elem_of_app. split.
      * intros [[Hnot ->]|[Hnot (e' & Hin & ->)]].
        -- split; [done |]. exists e. split; [by left | done].
        -- split; [tauto |]. exists e'. split; [by right | done].
      * intros [Hnot (e' & [->|Hin]%elem_of_cons & ->)]; [by left |].
        destruct (decide ((domain, as_text e') ∈ new1)) as [Hin1|Hnot1].
        -- left. by apply Hnew1.
        -- right. split; [tauto |]. by exists e'.
Qed.

(** X12. [save_to_db] only appends: the table afterwards is the table
    before, row for row, followed by new rows; the new rows are pairwise
    distinct, were not in the table, and are exactly the pairs of the domain
    with an element of [emails] that the table did not have.  A table
    without repeated rows stays one. *)
Theorem X12_save_to_db_appends (tbl : list row) (domain : string) (emails : list sql_param) :
  ∃ new,
    save_to_db tbl domain emails = tbl ++ new
    ∧ NoDup new
    ∧ (∀ r, r ∈ new ↔ (r ∉ tbl) ∧ ∃ email, email ∈ emails ∧ r = (domain, as_text email))
    ∧ (NoDup tbl → NoDup (tbl ++ new)).
Proof.
  destruct (save_to_db_grows tbl domain emails) as (new & Heq & Hnew & Hmem).
  exists new. split_and!; [done.. |].
  intros Hnodup. rewrite <- Heq. by apply save_to_db_NoDup.
Qed.

(** X13. The order in which [save_to_db] goes through [emails] decides
    nothing but the order of the new rows: for a table without repeated
    rows, two orders of the same elements leave the same rows. *)
Theorem X13_save_to_db_any_order (tbl : list row) (domain : string)
    (emails emails' : list sql_param) :
  NoDup tbl →
  emails ≡ₚ emails' →
  save_to_db tbl domain emails ≡ₚ save_to_db tbl domain emails'.
Proof.
  intros Hnodup Hperm.
  apply NoDup_Permutation; [by apply save_to_db_NoDup.. |].
  intros r. rewrite !save_to_db_elem. split.
  - intros [?|(e & Hin & ->)]; [by left |]. right. exists e. by rewrite <- Hperm.
  - intros [?|(e & Hin & ->)]; [by left |]. right. exists e. by rewrite Hperm.
Qed.

End StoreMore.

Section ProcessMore.
Variable urlsplit : string → option SplitResult.
Variable requests_get : string → option Response.
Variable find_all_a : string → list (option string).

#[local] Abbreviation scrape_domain := (scrape_domain urlsplit requests_get find_all_a).
#[local] Abbreviation process_domain := (process_domain urlsplit requests_get find_all_a).
#[local] Abbreviation process_domains_and_save_to_db :=
  (process_domains_and_save_to_db urlsplit requests_get find_all_a).

Lemma process_domains_NoDup (fuel : nat) (domains : list string) (max_urls : Z)
    (tbl tbl' : list row) :
  process_domains_and_save_to_db fuel domains max_urls tbl = Some (Saved tbl') →
  NoDup tbl → NoDup tbl'.
Proof.
  revert tbl. induction domains as [|domain domains IH]; intros tbl; simpl.
  - by intros [= <-].
  - destruct (process_domain fuel max_urls tbl domain) as [[tbl1|]|] eqn:Hone; [| done..].
    intros Hrest Hnodup. apply (IH _ Hrest).
    apply process_domain_saved in Hone as (fin & _ & ->). by apply store_found_NoDup.
Qed.

(** The rows after a list of domains is processed. *)
Lemma process_domains_elem (fuel : nat) (domains : list string) (max_urls : Z)
    (tbl tbl' : list row) (r : row) :
  process_domains_and_save_to_db fuel domains max_urls tbl = Some (Saved tbl') →
  r ∈ tbl' ↔
    r ∈ tbl
    ∨ ∃ domain fin,
        domain ∈ domains
        ∧ scrape_domain fuel domain max_urls = Some (Returned fin)
        ∧ ((local_emails fin = ∅ ∧ r = sentinel domain)
           ∨ ∃ email, email ∈ local_emails fin ∧ r = (domain, email)).
Proof.
  revert tbl. induction domains as [|domain domains IH]; intros tbl; simpl.
  - intros [= <-]. split; [by left |].
    by intros [?|(? & ? & ?%elem_of_nil & _)].
  - destruct (process_domain fuel max_urls tbl domain) as [[tbl1|]|] eqn:Hone; [| done..].
    intros Hrest. rewrite (IH _ Hrest).
    apply process_domain_saved in Hone as (fin & Hrun & ->).
    rewrite store_found_elem. split.
    + intros [[?|Hnew]|(d & f & Hin & Hd)]; [by left | right.. ].
      * exists domain, fin. split_and!; [by left | done | done].
      * exists d, f. destruct Hd as [? ?]. split_and!; [by right | done..].
    + intros [?|(d & f & [->|Hin]%elem_of_cons & Hf & Hd)]; [by left; left | |].
      * left; right. fold scrape_domain in Hrun. rewrite Hrun in Hf.
        by injection Hf as <-.
      * right. by exists d, f.
Qed.

(** X14. After a list of domains is processed without an exception,
    starting from a table without repeated rows: the table has no repeated
    rows, it begins with the rows it had, every domain of the list has at
    least one row, and a domain that is not in the list has only the rows it
    had before. *)
Theorem X14_processed_domains_rows (fuel : nat) (domains : list string) (max_urls : Z)
    (tbl tbl' : list row) :
  NoDup tbl →
  process_domains_and_save_to_db fuel domains max_urls tbl = Some (Saved tbl') →
  NoDup tbl'
  ∧ tbl `prefix_of` tbl'
  ∧ (∀ domain, domain ∈ domains → ∃ email, (domain, email) ∈ tbl')
  ∧ (∀ domain email, domain ∉ domains → (domain, email) ∈ tbl' → (domain, email) ∈ tbl).
Proof.
  intros Hnodup Hrun. split_and!.
  - by eapply process_domains_NoDup.
  - clear Hnodup. revert tbl Hrun.
    induction domains as [|domain domains IH]; intros tbl; simpl.
    + by intros [= <-].
    + destruct (process_domain fuel max_urls tbl domain) as [[tbl1|]|] eqn:Hone;
        [| done..].
      intros Hrest. apply IH in Hrest.
      apply process_domain_saved in Hone as (fin & _ & ->).
      etrans; [| done]. unfold store_found. case_bool_decide.
      * destruct (save_to_db_grows tbl domain [PInt 0]) as (new & -> & _). by apply prefix_app_r.
      * destruct (save_to_db_grows tbl domain (PText <$> elements (local_emails fin)))
          as (new & -> & _). by apply prefix_app_r.
  - intros domain Hin. by eapply processed_has_row.
  - intros domain email Hnotin Hin. by eapply not_processed_rows.
Qed.

(** X15. The order of the domain list decides nothing but the order of
    the rows: processing the same domains in two orders, from the same table
    without repeated rows, leaves the same rows. *)
Theorem X15_domain_order_irrelevant (fuel : nat) (domains domains' : list string)
    (max_urls : Z) (tbl tbl1 tbl2 : list row) :
  NoDup tbl →
  domains ≡ₚ domains' →
  process_domains_and_save_to_db fuel domains max_urls tbl = Some (Saved tbl1) →
  process_domains_and_save_to_db fuel domains' max_urls tbl = Some (Saved tbl2) →
  tbl1 ≡ₚ tbl2.
Proof.
  intros Hnodup Hperm Hrun1 Hrun2.
  apply NoDup_Permutation; [by eapply process_domains_NoDup.. |].
  intros r. rewrite (process_domains_elem _ _ _ _ _ _ Hrun1),
                    (process_domains_elem _ _ _ _ _ _ Hrun2).
  split; (intros [?|(d & f & Hin & Hd)]; [by left |]; right; exists d, f).
  - by rewrite <- Hperm.
  - by rewrite Hperm.
Qed.

End ProcessMore.

(** ** Where the links come from *)

Section LinkFacts.
Variable urlsplit : string → option SplitResult.
Variable requests_get : string → option Response.
Variable find_all_a : string → list (option string).

#[local] Abbreviation iteration := (iteration urlsplit requests_get find_all_a).
#[local] Abbreviation scan_page := (scan_page find_all_a).
#[local] Abbreviation reached := (reached urlsplit requests_get find_all_a).
#[local] Abbreviation found_on := (found_on urlsplit requests_get find_all_a).

Lemma appended_appends (l : list event) (links : list string) :
  appended (l ++ (Append <$> links)) = appended l ++ links.
Proof.
  unfold appended. rewrite omap_app. f_equal.
  induction links as [|x links IH]; simpl; [done | by f_equal].
Qed.

Lemma anchors_links (base_url path : string) (anchors : list (option string)) (st : crawl) :
  ∃ links,
    log (foldl (visit_anchor base_url path) st anchors) = log st ++ (Append <$> links)
    ∧ Forall (λ link, ∃ anchor, anchor ∈ anchors
                                ∧ link = resolve base_url path (default "" anchor)) links.
Proof.
  revert st. induction anchors as [|a anchors IH]; intros st; simpl.
  - exists []. by rewrite app_nil_r.
  - destruct (IH (visit_anchor base_url path st a)) as (links & -> & Hall).
    assert (Forall (λ link, ∃ anchor, anchor ∈ a :: anchors
                      ∧ link = resolve base_url path (default "" anchor)) links) as Hall'.
    { eapply Forall_impl; [done |]. intros link (anchor & Hin & ->).
      exists anchor. split; [by right | done]. }
    unfold visit_anchor. destruct (enqueueable _ _); [| by exists links].
    eexists (_ :: links). simpl. rewrite <- app_assoc. split; [done |].
    constructor; [| done]. exists a. split; [by left | done].
Qed.

(** The links that a pass appends were found on the page of its URL, which
    the pass requested. *)
Lemma pass_links (max_urls : Z) (url : string) (st st' : crawl) :
  flow_state (iteration max_urls url st) = Some st' →
  ∃ links, appended (log st') = appended (log st) ++ links
           ∧ Forall (found_on url) links
           ∧ (links = [] ∨ url ∈ fetched (log st')).
Proof.
  intros Hflow.
  pose proof (iteration_cases urlsplit requests_get find_all_a max_urls url st) as H.
  destruct (urlsplit url) as [parts|] eqn:Hsplit; [| by rewrite H in Hflow].
  assert (∀ l, appended ((log st ++ [Popleft url]) ++ l) = appended (log st) ++ appended l)
    as Happ.
  { intros l. unfold appended. rewrite !omap_app. simpl. by rewrite app_nil_r. }
  destruct (is_valid_url parts).
  - destruct (requests_get url) as [response|] eqn:Hget.
    + destruct (status_code response =? 200)%Z eqn:Hstatus; cbv zeta in H.
      * assert (st' = scan_page parts url response (requested url (scraped_add url st)))
          as ->.
        { destruct (max_urls <=? _)%Z; rewrite H in Hflow; by simplify_eq/=. }
        unfold scan_page.
        destruct (anchors_links (scheme parts +:+ "://" +:+ netloc parts)
                    (path_prefix parts url) (find_all_a (text response))
                    (emails_update (text response) (requested url (scraped_add url st))))
          as (links & -> & Hall).
        exists links. simpl. rewrite appended_appends, (Happ [Get url]). simpl.
        rewrite app_nil_r. split_and!; [done | |].
        -- eapply Forall_impl; [done |]. intros link (anchor & Hin & ->).
           exists parts, response, anchor. split_and!; try done. by apply Z.eqb_eq.
        -- right. rewrite fetched_appends, fetched_snoc. apply elem_of_app. right.
           by left.
      * rewrite H in Hflow. simplify_eq/=. exists []. rewrite (Happ [Get url]). simpl.
        rewrite !app_nil_r. split_and!; [done | constructor | by left].
    + rewrite H in Hflow. simplify_eq/=. exists []. rewrite (Happ [Get url]). simpl.
      rewrite !app_nil_r. split_and!; [done | constructor | by left].
  - rewrite H in Hflow. simplify_eq/=. exists [].
    pose proof (Happ []) as Hnil. rewrite app_nil_r in Hnil.
    rewrite Hnil. simpl. rewrite !app_nil_r. split_and!; [done | constructor | by left].
Qed.

Lemma reached_links (domain : string) (max_urls : Z) (st : crawl) :
  reached domain max_urls st →
  ∀ link, link ∈ appended (log st) →
    ∃ url, url ∈ fetched (log st) ∧ found_on url link.
Proof.
  revert st.
  apply (reached_induction urlsplit requests_get find_all_a domain max_urls
           (λ st, ∀ link, link ∈ appended (log st) →
                    ∃ url, url ∈ fetched (log st) ∧ found_on url link)).
  - by intros link ?%elem_of_nil.
  - intros st url rest st' _ IH _ Hflow link.
    destruct (pass_links _ _ _ _ Hflow) as (links & -> & Hall & Hfetched).
    intros [Hin|Hin]%elem_of_app.
    + destruct (IH link Hin) as (from & Hfrom & Hfound).
      exists from. split; [| done].
      apply pass_effect in Hflow as (parts & l & _ & _ & _ & ->).
      apply elem_of_app. by left.
    + exists url. split; [| by apply (proj1 (Forall_forall _ _) Hall)].
      destruct Hfetched as [->|?]; [by apply elem_of_nil in Hin | done].
Qed.

(** X16. The crawl requests nothing that it did not discover: at every
    loop test and after a [break], every link that was appended to the deque
    is the resolution of an anchor on the page of an earlier request of the
    same crawl that was answered with 200; so every URL taken off the deque
    is the seed or such a link. *)
Theorem X16_links_come_from_pages (domain : string) (max_urls : Z) (st : crawl) :
  reached domain max_urls st →
  (∀ link, link ∈ appended (log st) →
     ∃ url, url ∈ fetched (log st) ∧ found_on url link)
  ∧ (∀ url, url ∈ popped (log st) →
       url = domain ∨ ∃ from, from ∈ fetched (log st) ∧ found_on from url).
Proof.
  intros Hreached. split; [by apply (reached_links domain max_urls) |].
  intros url Hin.
  pose proof (reached_invariant _ _ _ _ _ _ Hreached) as [Hfifo _ _ _ _ _].
  assert (url ∈ domain :: appended (log st)) as [->|Happ]%elem_of_cons.
  { rewrite Hfifo. apply elem_of_app. by left. }
  - by left.
  - right. by apply (reached_links domain max_urls).
Qed.

End LinkFacts.

(** ** The threaded variant *)

Section ThreadedFacts.
Variable urlsplit : string → option SplitResult.
Variable requests_get : string → option Response.
Variable find_all_a : string → list (option string).

#[local] Abbreviation scrape_domain := (scrape_domain urlsplit requests_get find_all_a).
#[local] Abbreviation process_domain := (process_domain urlsplit requests_get find_all_a).
#[local] Abbreviation workers := (workers urlsplit requests_get find_all_a).
#[local] Abbreviation process_domains_threaded :=
  (process_domains_threaded urlsplit requests_get find_all_a).

Lemma process_domain_crashed (fuel : nat) (max_urls : Z) (tbl : list row) (domain : string) :
  process_domain fuel max_urls tbl domain = Some Crashed ↔
  scrape_domain fuel domain max_urls = Some Raised.
Proof.
  unfold process_domain. fold scrape_domain.
  by destruct (scrape_domain fuel domain max_urls) as [[fin|]|].
Qed.

Lemma workers_NoDup (fuel : nat) (order : list string) (max_urls : Z)
    (tbl tbl' : list row) (failed : list string) :
  workers fuel order max_urls tbl = Some (tbl', failed) → NoDup tbl → NoDup tbl'.
Proof.
  revert tbl failed. induction order as [|domain order IH]; intros tbl failed; simpl.
  - by intros [= <- <-].
  - unfold process_single_domain.
    destruct (process_domain fuel max_urls tbl domain) as [[tbl1|]|] eqn:Hone; [| | done].
    + intros Hrest Hnodup. apply (IH _ _ Hrest).
      apply process_domain_saved in Hone as (fin & _ & ->). by apply store_found_NoDup.
    + destruct (workers fuel order max_urls tbl) as [[t f]|] eqn:Hrest; [| done].
      intros [= <- <-]. by apply (IH _ _ Hrest).
Qed.

Lemma workers_prefix (fuel : nat) (order : list string) (max_urls : Z)
    (tbl tbl' : list row) (failed : list string) :
  workers fuel order max_urls tbl = Some (tbl', failed) → tbl `prefix_of` tbl'.
Proof.
  revert tbl failed. induction order as [|domain order IH]; intros tbl failed; simpl.
  - by intros [= <- <-].
  - unfold process_single_domain.
    destruct (process_domain fuel max_urls tbl domain) as [[tbl1|]|] eqn:Hone; [| | done].
    + intros Hrest. apply IH in Hrest.
      apply process_domain_saved in Hone as (fin & _ & ->).
      etrans; [| done]. unfold store_found. case_bool_decide.
      * destruct (save_to_db_grows tbl domain [PInt 0]) as (new & -> & _).
        by apply prefix_app_r.
      * destruct (save_to_db_grows tbl domain (PText <$> elements (local_emails fin)))
          as (new & -> & _). by apply prefix_app_r.
    + destruct (workers fuel order max_urls tbl) as [[t f]|] eqn:Hrest; [| done].
      intros [= <- <-]. by apply (IH _ _ Hrest).
Qed.

(** The rows and the failures after the workers have finished. *)
Lemma workers_elem (fuel : nat) (order : list string) (max_urls : Z)
    (tbl tbl' : list row) (failed : list string) :
  workers fuel order max_urls tbl = Some (tbl', failed) →
  (∀ r, r ∈ tbl' ↔
        r ∈ tbl
        ∨ ∃ domain fin,
            domain ∈ order
            ∧ scrape_domain fuel domain max_urls = Some (Returned fin)
            ∧ ((local_emails fin = ∅ ∧ r = sentinel domain)
               ∨ ∃ email, email ∈ local_emails fin ∧ r = (domain, email)))
  ∧ (∀ domain, domain ∈ failed ↔
               domain ∈ order ∧ scrape_domain fuel domain max_urls = Some Raised).
Proof.
  revert tbl failed. induction order as [|domain order IH]; intros tbl failed; simpl.
  - intros [= <- <-]. split.
    + intros r. split; [by left |]. by intros [?|(? & ? & ?%elem_of_nil & _)].
    + intros d. split; [by intros ?%elem_of_nil | by intros [?%elem_of_nil _]].
  - unfold process_single_domain.
    destruct (process_domain fuel max_urls tbl domain) as [[tbl1|]|] eqn:Hone; [| | done].
    + intros Hrest. destruct (IH _ _ Hrest) as [Hrows Hfailed].
      apply process_domain_saved in Hone as (fin & Hrun & ->).
      fold scrape_domain in Hrun. split.
      * intros r. rewrite Hrows, store_found_elem. split.
        -- intros [[?|Hnew]|(d & f & Hin & Hd)]; [by left | right..].
           ++ exists domain, fin. split_and!; [by left | done | done].
           ++ exists d, f. destruct Hd as [? ?]. split_and!; [by right | done..].
        -- intros [?|(d & f & [->|Hin]%elem_of_cons & Hf & Hd)]; [by left; left | |].
           ++ left; right. rewrite Hrun in Hf. by injection Hf as <-.
           ++ right. by exists d, f.
      * intros d. rewrite Hfailed. split.
        -- intros [Hin Hd]. split; [by right | done].
        -- intros [[->|Hin]%elem_of_cons Hd]; [congruence | done].
    + destruct (workers fuel order max_urls tbl) as [[t f]|] eqn:Hrest; [| done].
      intros [= <- <-]. destruct (IH _ _ Hrest) as [Hrows Hfailed].
      apply process_domain_crashed in Hone. split.
      * intros r. rewrite Hrows. split.
        -- intros [?|(d & fin & Hin & Hd)]; [by left |]. right. exists d, fin.
           destruct Hd as [? ?]. split_and!; [by right | done..].
        -- intros [?|(d & fin & [->|Hin]%elem_of_cons & Hf & Hd)]; [by left | congruence |].
           right. by exists d, fin.
      * intros d. rewrite elem_of_cons, Hfailed. split.
        -- intros [->|[Hin Hd]]; [split; [by left | done] | split; [by right | done]].
        -- intros [[->|Hin]%elem_of_cons Hd]; [by left | by right].
Qed.

(** X18. Isolation between workers: when the workers have finished, in
    whatever order they wrote, the table has no repeated rows and begins with
    the rows it had; every domain whose crawl returned has its rows, the row
    with [0] or one row per e-mail, also when the crawl of another domain
    raised; and the run raises at the end exactly when some crawl raised. *)
Theorem X18_workers_are_isolated (fuel : nat) (threads : Z) (order : list string)
    (max_urls : Z) (tbl tbl' : list row) (raised : bool) :
  (0 < threads)%Z →
  NoDup tbl →
  process_domains_threaded fuel threads order max_urls tbl = Some (tbl', raised) →
  NoDup tbl'
  ∧ tbl `prefix_of` tbl'
  ∧ (∀ domain fin,
       domain ∈ order → scrape_domain fuel domain max_urls = Some (Returned fin) →
       (local_emails fin = ∅ → sentinel domain ∈ tbl')
       ∧ (∀ email, email ∈ local_emails fin → (domain, email) ∈ tbl'))
  ∧ (raised = true ↔
     ∃ domain, domain ∈ order ∧ scrape_domain fuel domain max_urls = Some Raised).
Proof.
  intros Hthreads Hnodup. unfold process_domains_threaded.
  destruct (Z.leb_spec threads 0) as [?|_]; [lia |].
  destruct (workers fuel order max_urls tbl) as [[t failed]|] eqn:Hrun; [| done].
  intros [= <- <-]. destruct (workers_elem _ _ _ _ _ _ Hrun) as [Hrows Hfailed].
  split_and!.
  - by eapply workers_NoDup.
  - by eapply workers_prefix.
  - intros domain fin Hin Hfin. split.
    + intros Hempty. apply Hrows. right. exists domain, fin. split_and!; [done.. |].
      by left.
    + intros email Hemail. apply Hrows. right. exists domain, fin.
      split_and!; [done.. |]. right. by exists email.
  - rewrite bool_decide_eq_true. split.
    + intros Hne. destruct failed as [|d failed]; [done |].
      exists d. apply Hfailed. by left.
    + intros (d & Hd) ->. apply Hfailed in Hd. by apply elem_of_nil in Hd.
Qed.

(** X19. The order in which the workers write decides nothing but the
    order of the rows: two runs over the same domains, from the same table
    without repeated rows, leave the same rows and raise or not alike. *)
Theorem X19_worker_order_irrelevant (fuel : nat) (threads : Z)
    (order order' : list string) (max_urls : Z) (tbl tbl1 tbl2 : list row)
    (raised1 raised2 : bool) :
  NoDup tbl →
  order ≡ₚ order' →
  process_domains_threaded fuel threads order max_urls tbl = Some (tbl1, raised1) →
  process_domains_threaded fuel threads order' max_urls tbl = Some (tbl2, raised2) →
  tbl1 ≡ₚ tbl2 ∧ raised1 = raised2.
Proof.
  intros Hnodup Hperm. unfold process_domains_threaded.
  destruct (threads <=? 0)%Z; [by intros [= <- <-] [= <- <-] |].
  destruct (workers fuel order max_urls tbl) as [[t1 f1]|] eqn:Hrun1; [| done].
  destruct (workers fuel order' max_urls tbl) as [[t2 f2]|] eqn:Hrun2; [| done].
  intros [= <- <-] [= <- <-].
  destruct (workers_elem _ _ _ _ _ _ Hrun1) as [Hrows1 Hfailed1].
  destruct (workers_elem _ _ _ _ _ _ Hrun2) as [Hrows2 Hfailed2].
  split.
  - apply NoDup_Permutation; [by eapply workers_NoDup.. |].
    intros r. rewrite Hrows1, Hrows2.
    split; (intros [?|(d & f & Hin & Hd)]; [by left |]; right; exists d, f).
    + by rewrite <- Hperm.
    + by rewrite Hperm.
  - assert (∀ d, d ∈ f1 ↔ d ∈ f2) as Hsame.
    { intros d. rewrite Hfailed1, Hfailed2. by rewrite Hperm. }
    destruct f1 as [|d1 f1], f2 as [|d2 f2]; try done.
    + exfalso. eapply elem_of_nil, Hsame. by left.
    + exfalso. eapply elem_of_nil, Hsame. by left.
Qed.

(** A number of threads below one: the run raises before any worker is
    started, and the table is left as it was. *)
Lemma no_threads_no_work (fuel : nat) (threads : Z) (order : list string)
    (max_urls : Z) (tbl : list row) :
  (threads ≤ 0)%Z →
  process_domains_threaded fuel threads order max_urls tbl = Some (tbl, true).
Proof.
  intros Hle. unfold process_domains_threaded.
  by destruct (Z.leb_spec threads 0) as [_|?]; [| lia].
Qed.

End ThreadedFacts.

(** ** The further properties at concrete inputs *)

Example domains_file_loaded :
  load_domains_from_file UrlLib.urlsplit (Some domains_file)
  = [ "http://a.test/"; "http://b.test/" ].
Proof. reflexivity. Qed.

Lemma first_link_times_out_reached :
  reached UrlLib.urlsplit (Site.get first_link_times_out) (Site.anchors first_link_times_out)
    "http://a.test/" 2 first_link_times_out_end.
Proof.
  apply (while_urls_reached _ _ _ "http://a.test/" 2 3 (start "http://a.test/"));
    [apply head_start | by vm_compute].
Defined.


(** X3 at the end of the crawl of [two_pages]. *)
Lemma X3_witness :
  reached UrlLib.urlsplit (Site.get two_pages) (Site.anchors two_pages)
    "http://a.test/" 10 two_pages_end
  ∧ popped (log two_pages_end) ++ urls two_pages_end
    = "http://a.test/" :: appended (log two_pages_end).
Proof.
  split; [exact two_pages_reached |].
  exact (proj1 (X3_fifo_order UrlLib.urlsplit (Site.get two_pages) (Site.anchors two_pages)
                  "http://a.test/" 10 two_pages_end two_pages_reached)).
Defined.

(** X4 at the end of the crawl of [two_pages], for the second request. *)
Lemma X4_witness :
  "http://a.test/about" ∈ fetched (log two_pages_end)
  ∧ "http://a.test/about" ∈ popped (log two_pages_end)
  ∧ ∃ parts,
      UrlLib.urlsplit "http://a.test/about" = Some parts
      ∧ (scheme parts = "http" ∨ scheme parts = "https")
      ∧ netloc parts ≠ "".
Proof.
  assert ("http://a.test/about" ∈ fetched (log two_pages_end)) as Hin.
  { apply list_elem_of_further, list_elem_of_here. }
  split; [exact Hin |].
  exact (X4_only_valid_requested UrlLib.urlsplit (Site.get two_pages)
           (Site.anchors two_pages) "http://a.test/" 10 two_pages_end
           "http://a.test/about" two_pages_reached Hin).
Defined.

(** X5 at the end of the crawl of [first_link_times_out] with
    [max_urls = 2]: three scraped URLs, one of them skipped. *)
Lemma X5_witness :
  size (local_scraped_urls first_link_times_out_end) = 3
  ∧ List.filter (skipped UrlLib.urlsplit (Site.get first_link_times_out))
                (popped (log first_link_times_out_end)) = [ "http://a.test/a" ]
  ∧ (Z.of_nat (size (local_scraped_urls first_link_times_out_end))
     ≤ Z.max 1 2
       + Z.of_nat (length (List.filter
                             (skipped UrlLib.urlsplit (Site.get first_link_times_out))
                             (popped (log first_link_times_out_end)))))%Z.
Proof.
  split; [by vm_compute |]. split; [by vm_compute |].
  exact (X5_limit_up_to_skips UrlLib.urlsplit (Site.get first_link_times_out)
           (Site.anchors first_link_times_out) "http://a.test/" 2
           first_link_times_out_end first_link_times_out_reached).
Defined.

(** X6 on [two_pages] with [max_urls = 0]. *)
Lemma X6_witness :
  (0 ≤ 1)%Z
  ∧ ∃ r,
      (∀ fuel, (1 ≤ fuel)%nat → Site.scrape two_pages fuel "http://a.test/" 0 = Some r)
      ∧ (∀ st, r = Returned st →
           popped (log st) = [ "http://a.test/" ]
           ∧ local_scraped_urls st = {[ "http://a.test/" ]}).
Proof.
  split; [discriminate |].
  apply (X6_limit_below_two UrlLib.urlsplit (Site.get two_pages) (Site.anchors two_pages)
           "http://a.test/" 0).
  discriminate.
Defined.

(** X7 on [no_emails] for a seed that the site does not serve. *)
Lemma X7_witness :
  Site.get no_emails "http://c.test/" = None
  ∧ ∃ fin,
      (∀ fuel, (1 ≤ fuel)%nat →
         Site.scrape no_emails fuel "http://c.test/" 10 = Some (Returned fin))
      ∧ local_emails fin = ∅
      ∧ (∀ fuel, (1 ≤ fuel)%nat →
           process_domain UrlLib.urlsplit (Site.get no_emails) (Site.anchors no_emails)
             fuel 10 [] "http://c.test/"
           = Some (Saved (insert_or_ignore "http://c.test/" [] (PInt 0))))
      ∧ sentinel "http://c.test/" ∈ insert_or_ignore "http://c.test/" [] (PInt 0).
Proof.
  split; [reflexivity |].
  apply (X7_failed_seed_recorded_as_empty UrlLib.urlsplit (Site.get no_emails)
           (Site.anchors no_emails) "http://c.test/" 10 []
           (mkSplit "http" "c.test" "/" "" "") eq_refl).
  right. left. reflexivity.
Defined.

(** X8 at the end of the crawl of [two_pages], for [sales@a.test]. *)
Lemma X8_witness :
  "sales@a.test" ∈ local_emails two_pages_end
  ∧ ∃ url response,
      url ∈ fetched (log two_pages_end)
      ∧ Site.get two_pages url = Some response
      ∧ status_code response = 200%Z
      ∧ "sales@a.test" ∈ EmailRe.findall (text response)
      ∧ PyStr.contains "sales@a.test" (text response) = true.
Proof.
  assert ("sales@a.test" ∈ local_emails two_pages_end) as Hin.
  { apply elem_of_union. right. by apply elem_of_singleton. }
  split; [exact Hin |].
  apply (X8_emails_come_from_pages UrlLib.urlsplit (Site.get two_pages)
           (Site.anchors two_pages) "http://a.test/" 10 2 two_pages_end "sales@a.test");
    [by vm_compute | exact Hin].
Defined.

(** X11 for the first domain of [domains_file], crawled on [two_pages]. *)
Lemma X11_witness :
  "http://a.test/" ∈ load_domains_from_file UrlLib.urlsplit (Some domains_file)
  ∧ ∃ rest, fetched (log two_pages_end) = "http://a.test/" :: rest.
Proof.
  assert ("http://a.test/" ∈ load_domains_from_file UrlLib.urlsplit (Some domains_file))
    as Hin.
  { apply (list_elem_of_here "http://a.test/" [ "http://b.test/" ]). }
  split; [exact Hin |].
  apply (X11_loaded_domain_is_requested UrlLib.urlsplit (Site.get two_pages)
           (Site.anchors two_pages) (Some domains_file) "http://a.test/" 10 2
           two_pages_end Hin).
  by vm_compute.
Defined.

(** X13 for two addresses in both orders. *)
Lemma X13_witness :
  save_to_db [] "http://a.test/" [ PText "info@a.test"; PText "sales@a.test" ]
  ≡ₚ save_to_db [] "http://a.test/" [ PText "sales@a.test"; PText "info@a.test" ].
Proof.
  apply (X13_save_to_db_any_order [] "http://a.test/"); [apply NoDup_nil_2 |].
  apply perm_swap.
Defined.

(** X14 for the two domains of [two_sites], from the empty table. *)
Lemma X14_witness :
  ∃ tbl',
    process_domains_and_save_to_db UrlLib.urlsplit (Site.get two_sites)
      (Site.anchors two_sites) 2 [ "http://b.test/"; "http://a.test/" ] 10 []
    = Some (Saved tbl')
    ∧ NoDup tbl'
    ∧ (∀ domain, domain ∈ [ "http://b.test/"; "http://a.test/" ] →
         ∃ email, (domain, email) ∈ tbl').
Proof.
  eexists. split; [by vm_compute |].
  refine (let H := X14_processed_domains_rows UrlLib.urlsplit (Site.get two_sites)
                     (Site.anchors two_sites) 2 [ "http://b.test/"; "http://a.test/" ]
                     10 [] _ (NoDup_nil_2 (A:=row)) _ in
          conj (proj1 H) (proj1 (proj2 (proj2 H)))).
  by vm_compute.
Defined.

(** X15 for the two domains of [two_sites] in both orders. *)
Lemma X15_witness :
  ∃ tbl1 tbl2,
    process_domains_and_save_to_db UrlLib.urlsplit (Site.get two_sites)
      (Site.anchors two_sites) 2 [ "http://b.test/"; "http://a.test/" ] 10 []
    = Some (Saved tbl1)
    ∧ process_domains_and_save_to_db UrlLib.urlsplit (Site.get two_sites)
        (Site.anchors two_sites) 2 [ "http://a.test/"; "http://b.test/" ] 10 []
      = Some (Saved tbl2)
    ∧ tbl1 ≡ₚ tbl2.
Proof.
  eexists _, _. split; [by vm_compute |]. split; [by vm_compute |].
  apply (X15_domain_order_irrelevant UrlLib.urlsplit (Site.get two_sites)
           (Site.anchors two_sites) 2 [ "http://b.test/"; "http://a.test/" ]
           [ "http://a.test/"; "http://b.test/" ] 10 []);
    [apply NoDup_nil_2 | apply perm_swap | by vm_compute..].
Defined.

(** X16 at the end of the crawl of [two_pages], for its one link. *)
Lemma X16_witness :
  "http://a.test/about" ∈ appended (log two_pages_end)
  ∧ ∃ url,
      url ∈ fetched (log two_pages_end)
      ∧ found_on UrlLib.urlsplit (Site.get two_pages) (Site.anchors two_pages)
          url "http://a.test/about".
Proof.
  assert ("http://a.test/about" ∈ appended (log two_pages_end)) as Hin.
  { apply list_elem_of_here. }
  split; [exact Hin |].
  exact (proj1 (X16_links_come_from_pages UrlLib.urlsplit (Site.get two_pages)
                  (Site.anchors two_pages) "http://a.test/" 10 two_pages_end
                  two_pages_reached) "http://a.test/about" Hin).
Defined.

(** X17 for [info@a.test]. *)
Lemma X17_witness :
  EmailRe.findall "info@a.test" = [ "info@a.test" ].
Proof.
  exact (X17_findall_address "info" "a" "test"
           ltac:(discriminate) eq_refl ltac:(discriminate) eq_refl
           ltac:(discriminate) eq_refl).
Defined.

Example c_test_raises :
  Site.scrape three_sites 2 "http://c.test/" 10 = Some Raised.
Proof. by vm_compute. Qed.

(** X18 on [three_sites] with five threads: the crawl of [c.test] raises,
    the other two domains have their rows. *)
Lemma X18_witness :
  ∃ tbl',
    process_domains_threaded UrlLib.urlsplit (Site.get three_sites)
      (Site.anchors three_sites) 2 5
      [ "http://c.test/"; "http://b.test/"; "http://a.test/" ] 10 []
    = Some (tbl', true)
    ∧ NoDup tbl'
    ∧ sentinel "http://b.test/" ∈ tbl'
    ∧ ("http://a.test/", "info@a.test") ∈ tbl'.
Proof.
  assert (∃ tbl', process_domains_threaded UrlLib.urlsplit (Site.get three_sites)
                    (Site.anchors three_sites) 2 5
                    [ "http://c.test/"; "http://b.test/"; "http://a.test/" ] 10 []
                  = Some (tbl', true)) as [tbl' Hrun].
  { eexists. by vm_compute. }
  exists tbl'. split; [exact Hrun |].
  destruct (X18_workers_are_isolated UrlLib.urlsplit (Site.get three_sites)
              (Site.anchors three_sites) 2 5
              [ "http://c.test/"; "http://b.test/"; "http://a.test/" ] 10 [] tbl' true
              eq_refl (NoDup_nil_2 (A:=row)) Hrun) as (Hnodup & _ & Hrows & _).
  split; [exact Hnodup |].
  assert (∃ fin, Site.scrape three_sites 2 "http://b.test/" 10 = Some (Returned fin)
                 ∧ local_emails fin = ∅) as (fin_b & Hb & Hempty).
  { eexists. split; by vm_compute. }
  assert (∃ fin, Site.scrape three_sites 2 "http://a.test/" 10 = Some (Returned fin)
                 ∧ "info@a.test" ∈ local_emails fin) as (fin_a & Ha & Hinfo).
  { exists two_pages_end. split; [by vm_compute |].
    apply elem_of_union. left. by apply elem_of_singleton. }
  split.
  - apply (proj1 (Hrows "http://b.test/" fin_b
                    (list_elem_of_further _ _ _ (list_elem_of_here _ _)) Hb) Hempty).
  - apply (proj2 (Hrows "http://a.test/" fin_a
                    (list_elem_of_further _ _ _
                       (list_elem_of_further _ _ _ (list_elem_of_here _ _))) Ha)
                 "info@a.test" Hinfo).
Defined.

(** X19 on [three_sites] for two orders of its three domains. *)
Lemma X19_witness :
  ∃ tbl1 tbl2,
    process_domains_threaded UrlLib.urlsplit (Site.get three_sites)
      (Site.anchors three_sites) 2 5
      [ "http://c.test/"; "http://b.test/"; "http://a.test/" ] 10 []
    = Some (tbl1, true)
    ∧ process_domains_threaded UrlLib.urlsplit (Site.get three_sites)
        (Site.anchors three_sites) 2 5
        [ "http://b.test/"; "http://c.test/"; "http://a.test/" ] 10 []
      = Some (tbl2, true)
    ∧ tbl1 ≡ₚ tbl2.
Proof.
  eexists _, _. split; [by vm_compute |]. split; [by vm_compute |].
  refine (proj1 (X19_worker_order_irrelevant UrlLib.urlsplit (Site.get three_sites)
                   (Site.anchors three_sites) 2 5
                   [ "http://c.test/"; "http://b.test/"; "http://a.test/" ]
                   [ "http://b.test/"; "http://c.test/"; "http://a.test/" ] 10 [] _ _
                   true true (NoDup_nil_2 (A:=row)) (perm_swap _ _ _) _ _));
    by vm_compute.
Defined.
